(** * NCM container conversion (ncm_converter.py)

    A shallow embedding of the per-file conversion pipeline of
    [ncm_converter.py] and the properties its specification states about it.

    Conventions of the embedding.
    - A Python [int] is a [Z]; a [bytes]/[bytearray] value is a [list Z] whose
      entries are in [range(256)] ([is_bytes]); a Python [list] is a [list].
    - A Python [str] is a sequence of code points; it is held as the
      [string] of its UTF-8 encoding, and the operations that count
      characters ([s[0]], [s[6:]]) count code points.
    - Code that can raise lives in the error monad [Res]; the body of
      [decrypt_ncm], which also writes files and can [return] early, lives in
      the state-and-control monad [M].
    - Library calls whose implementation is outside the repository and too
      large to write out (AES, base64, UTF-8, JSON, the cover-art and tagging
      collaborators) are fields of the record [externals]; every statement
      about [decrypt_ncm] is quantified over them. *)

From Stdlib Require Import ZArith Lia Floats Ascii String.
From stdpp Require Import gmap strings list fin_maps pretty.

Local Open Scope Z_scope.

(** ** Python values and exceptions *)

Abbreviation bytes := (list Z).

Definition is_byte (b : Z) : Prop := 0 ≤ b < 256.
Definition is_bytes (s : bytes) : Prop := Forall is_byte s.

Inductive exn_class :=
  | FileNotFoundError
  | StructError
  | IndexError
  | ZeroDivisionError
  | ValueError
  | AttributeError
  | KeyError
  | TypeError
  | LibraryError (name : string).

(** An exception is its class and the text [str(e)] gives.  The texts
    written below follow CPython's wording; the statements depend on them only
    through the ['error'] field of a failure result being [str(e)]. *)
Inductive exn := Exn (cls : exn_class) (msg : string).

Definition str_exn (e : exn) : string := let 'Exn _ msg := e in msg.

Definition Res (A : Type) : Type := (exn + A)%type.

Definition raise {A} (e : exn) : Res A := inl e.

Definition res_bind {A B} (m : Res A) (k : A → Res B) : Res B :=
  match m with
  | inl e => inl e
  | inr a => k a
  end.

Declare Scope res_scope.
Delimit Scope res_scope with res.
Notation "x <- m ;; k" := (res_bind m (fun x => k))
  (at level 100, m at next level, right associativity) : res_scope.

(** ** Sequences: [len], indexing, slicing, [range], [for] *)

Definition len {A} (l : list A) : Z := Z.of_nat (length l).

(** [l[i]]: a negative index counts from the end; out of range raises. *)
Definition norm_index {A} (l : list A) (i : Z) : Z :=
  if i <? 0 then i + len l else i.

Definition getitem {A} (l : list A) (i : Z) : Res A :=
  let k := norm_index l i in
  if k <? 0 then raise (Exn IndexError "index out of range")
  else match l !! Z.to_nat k with
       | Some x => inr x
       | None => raise (Exn IndexError "index out of range")
       end.

(** [l[i] = v]. *)
Definition setitem {A} (l : list A) (i : Z) (v : A) : Res (list A) :=
  let k := norm_index l i in
  if (0 <=? k) && (k <? len l) then inr (<[Z.to_nat k := v]> l)
  else raise (Exn IndexError "assignment index out of range").

(** [l[start:stop]]: both bounds are clamped to the sequence, a negative
    bound counts from the end, and an empty range gives the empty sequence. *)
Definition clamp_index (n i : Z) : Z :=
  if i <? 0 then Z.max (i + n) 0 else Z.min i n.

Definition slice {A} (l : list A) (start stop : option Z) : list A :=
  let lo := from_option (clamp_index (len l)) 0 start in
  let hi := from_option (clamp_index (len l)) (len l) stop in
  take (Z.to_nat (hi - lo)) (drop (Z.to_nat lo) l).

Definition range (n : nat) : list Z := Z.of_nat <$> seq 0 n.

(** [a % b] on integers. *)
Definition py_mod (a b : Z) : Res Z :=
  if b =? 0 then raise (Exn ZeroDivisionError "integer modulo by zero")
  else inr (a mod b).

(** [for x in xs: s = body(x, s)], stopping at the first exception. *)
Fixpoint for_in {S} (xs : list Z) (body : Z → S → Res S) (s : S) : Res S :=
  match xs with
  | [] => inr s
  | x :: xs' => res_bind (body x s) (for_in xs' body)
  end.

(** ** Padding removal (line 66)

    [unpad = lambda s: s[0:-(s[-1] if type(s[-1]) == int else ord(s[-1]))]].
    Indexing a [bytes] value gives an [int], so the first branch is the one
    taken. *)
Definition unpad (s : bytes) : Res bytes :=
  (n <- getitem s (-1) ;;
   inr (slice s (Some 0) (Some (- n))))%res.

(** ** Keystream derivation (lines 82-93) *)

(** One iteration of the loop of lines 84-86, on the pair [(box, j)]. *)
Definition ksa_body (key_data : bytes) (i : Z) (st : list Z * Z)
  : Res (list Z * Z) :=
  (let '(box, j) := st in
   bi <- getitem box i ;;
   r <- py_mod i (len key_data) ;;
   k <- getitem key_data r ;;
   let j := Z.land (j + bi + k) 0xff in
   (* box[i], box[j] = box[j], box[i]: the right-hand side is read first,
      then box[i] is stored, then box[j]. *)
   bj <- getitem box j ;;
   bi <- getitem box i ;;
   box <- setitem box i bj ;;
   box <- setitem box j bi ;;
   inr (box, j))%res.

(** One iteration of the loop of lines 89-93, on [key_stream]. *)
Definition key_stream_body (box : list Z) (i : Z) (key_stream : list Z)
  : Res (list Z) :=
  (let key1 := Z.land (i + 1) 0xff in
   b1 <- getitem box key1 ;;
   let key2 := Z.land (key1 + b1) 0xff in
   b1 <- getitem box key1 ;;
   b2 <- getitem box key2 ;;
   let idx := Z.land (b1 + b2) 0xff in
   v <- getitem box idx ;;
   setitem key_stream i v)%res.

Definition ksa (key_data : bytes) : Res (list Z * Z) :=
  for_in (range 256) (ksa_body key_data) (range 256, 0).

Definition derive_key_stream (key_data : bytes) : Res (list Z) :=
  (st <- ksa key_data ;;
   for_in (range 256) (key_stream_body st.1) (replicate 256 0))%res.

(** ** Byte strings: literals, [struct.unpack('<I', ...)], [binascii.b2a_hex] *)

(** The [bytes] literal [b'...'] of an ASCII text. *)
Definition b (s : string) : bytes :=
  (λ c, Z.of_N (Ascii.N_of_ascii c)) <$> String.list_ascii_of_string s.

(** [struct.unpack('<I', buf)[0]]: exactly four bytes, little endian. *)
Definition unpack_I (buf : bytes) : Res Z :=
  match buf with
  | [b0; b1; b2; b3] =>
      inr (b0 + Z.shiftl b1 8 + Z.shiftl b2 16 + Z.shiftl b3 24)
  | _ => raise (Exn StructError "unpack requires a buffer of 4 bytes")
  end.

(** The ASCII code of the lower-case hexadecimal digit of [d]. *)
Definition hexdigit (d : Z) : Z := if d <? 10 then 48 + d else 87 + d.

Definition b2a_hex (data : bytes) : bytes :=
  data ≫= λ x, [hexdigit (x `div` 16); hexdigit (x `mod` 16)].

(** [buf[i] ^= c] for every index of a [bytearray] (lines 76-77, 98-99). *)
Definition xor_inplace (c : Z) (buf : bytes) : Res bytes :=
  for_in (range (length buf))
    (λ i buf, (x <- getitem buf i ;; setitem buf i (Z.lxor x c))%res) buf.

(** The two fixed keys, [binascii.a2b_hex] of the literals of lines 64-65. *)
Definition core_key : bytes :=
  [0x68; 0x7A; 0x48; 0x52; 0x41; 0x6D; 0x73; 0x6F;
   0x35; 0x6B; 0x49; 0x6E; 0x62; 0x61; 0x78; 0x57].

Definition meta_key : bytes :=
  [0x23; 0x31; 0x34; 0x6C; 0x6A; 0x6B; 0x5F; 0x21;
   0x5C; 0x5D; 0x26; 0x30; 0x55; 0x3C; 0x27; 0x28].

(** ** Strings *)

Definition ascii_upper (c : ascii) : ascii :=
  let n := Ascii.nat_of_ascii c in
  if ((97 <=? n) && (n <=? 122))%nat then Ascii.ascii_of_nat (n - 32) else c.

Definition ascii_lower (c : ascii) : ascii :=
  let n := Ascii.nat_of_ascii c in
  if ((65 <=? n) && (n <=? 90))%nat then Ascii.ascii_of_nat (n + 32) else c.

Fixpoint str_map (g : ascii → ascii) (s : string) : string :=
  match s with
  | EmptyString => EmptyString
  | String c s' => String (g c) (str_map g s')
  end.

Definition upper : string → string := str_map ascii_upper.
Definition lower : string → string := str_map ascii_lower.

(** [upper] and [lower] change the ASCII letters only; the code applies
    them to the format after the validator accepted it (['flac'], ['mp3']),
    to the format of a result and to the format name of a picture. *)

(** *** Code points

    In UTF-8 a code point is one byte that is not a continuation byte
    [10xxxxxx], followed by continuation bytes only.  A [str] can hold a lone
    surrogate; it is encoded by the same three-byte scheme. *)
Definition code_point (cp : Z) : Prop := 0 ≤ cp < 0x110000.

Definition chr (n : Z) : ascii := Ascii.ascii_of_N (Z.to_N n).

Definition utf8_char (cp : Z) : string :=
  if cp <? 0x80 then String (chr cp) ""
  else if cp <? 0x800 then
    String (chr (0xC0 + cp `div` 64)) (String (chr (0x80 + cp `mod` 64)) "")
  else if cp <? 0x10000 then
    String (chr (0xE0 + cp `div` 4096))
      (String (chr (0x80 + (cp `div` 64) `mod` 64))
         (String (chr (0x80 + cp `mod` 64)) ""))
  else
    String (chr (0xF0 + cp `div` 262144))
      (String (chr (0x80 + (cp `div` 4096) `mod` 64))
         (String (chr (0x80 + (cp `div` 64) `mod` 64))
            (String (chr (0x80 + cp `mod` 64)) ""))).

(** The [str] with the code points [cps]. *)
Definition utf8 (cps : list Z) : string :=
  foldr (λ cp s, utf8_char cp +:+ s) "" cps.

Definition is_continuation (c : ascii) : bool :=
  let n := Ascii.N_of_ascii c in ((128 <=? n) && (n <? 192))%N.

(** [s] behind the continuation bytes at its front, and those bytes. *)
Fixpoint skip_continuation (s : string) : string :=
  match s with
  | String c s' => if is_continuation c then skip_continuation s' else s
  | EmptyString => s
  end.

Fixpoint take_continuation (s : string) : string :=
  match s with
  | String c s' =>
      if is_continuation c then String c (take_continuation s') else EmptyString
  | EmptyString => EmptyString
  end.

(** [s[n:]] on a [str]: [n] code points are dropped. *)
Fixpoint str_drop (n : nat) (s : string) : string :=
  match n, s with
  | S n', String _ s' => str_drop n' (skip_continuation s')
  | _, _ => s
  end.

(** [s[0]] on the [str] [String c s]: its first code point. *)
Definition first_char (c : ascii) (s : string) : string :=
  String c (take_continuation s).

(** The first [n] bytes of an encoded [str]; used at the index of an ASCII
    character only. *)
Fixpoint str_take (n : nat) (s : string) : string :=
  match n, s with
  | S n', String c s' => String c (str_take n' s')
  | _, _ => EmptyString
  end.

(** [s.rfind(c)], [None] standing for [-1]. *)
Fixpoint rfind (c : ascii) (s : string) : option nat :=
  match s with
  | EmptyString => None
  | String a s' =>
      match rfind c s' with
      | Some i => Some (S i)
      | None => if Ascii.eqb a c then Some O else None
      end
  end.

Fixpoint str_contains (c : ascii) (s : string) : bool :=
  match s with
  | EmptyString => false
  | String a s' => Ascii.eqb a c || str_contains c s'
  end.

(** ** Paths ([pathlib], POSIX flavour, as in CPython 3.13)

    A path is the directory it lies in and its final component, [name].
    [with_suffix] refuses a suffix that does not start with a dot, the lone
    dot, and, through [with_name], a new name that contains the separator;
    CPython 3.14 accepts the lone dot, which no statement below depends on. *)

Record Path := mkPath { parent : string; name : string }.

#[global] Instance Path_eq_dec : EqDecision Path.
Proof. solve_decision. Defined.

#[global] Instance Path_countable : Countable Path :=
  inj_countable' (λ p, (parent p, name p)) (λ q, mkPath q.1 q.2)
    (λ p, match p with mkPath _ _ => eq_refl end).

Definition str_path (p : Path) : string :=
  if decide (parent p = "") then name p else parent p +:+ "/" +:+ name p.

(** The index at which the last suffix of a name starts, if it has one:
    [i = name.rfind('.')] with [0 < i < len(name) - 1]. *)
Definition suffix_start (nm : string) : option nat :=
  match rfind "." nm with
  | Some i => if ((0 <? i) && (i <? String.length nm - 1))%nat then Some i else None
  | None => None
  end.

Definition stem (p : Path) : string :=
  match suffix_start (name p) with
  | Some i => str_take i (name p)
  | None => name p
  end.

Definition with_name (p : Path) (nm : string) : Res Path :=
  if bool_decide (nm = "") || str_contains "/" nm || bool_decide (nm = ".") then
    raise (Exn ValueError ("Invalid name '" +:+ nm +:+ "'"))
  else if decide (name p = "") then
    raise (Exn ValueError ("PosixPath('" +:+ str_path p +:+ "') has an empty name"))
  else inr (mkPath (parent p) nm).

Definition with_suffix (p : Path) (suffix : string) : Res Path :=
  if decide (suffix = "") then with_name p (stem p)
  else if decide (stem p = "") then
    raise (Exn ValueError ("PosixPath('" +:+ str_path p +:+ "') has an empty name"))
  else if (String.prefix "." suffix && (1 <? String.length suffix)%nat)%bool then
    with_name p (stem p +:+ suffix)
  else raise (Exn ValueError ("Invalid suffix '" +:+ suffix +:+ "'")).

(** ** JSON values, as [json.loads] builds them *)

#[local] Unset Elimination Schemes.
Inductive json :=
  | JNull
  | JBool (v : bool)
  | JInt (n : Z)
  | JFloat (x : float)
  | JStr (s : string)
  | JList (l : list json)
  | JDict (items : list (string * json)).
#[local] Set Elimination Schemes.

Fixpoint assoc_get (key : string) (items : list (string * json)) : option json :=
  match items with
  | [] => None
  | (k, v) :: items' => if decide (key = k) then Some v else assoc_get key items'
  end.

Definition py_type_name (v : json) : string :=
  match v with
  | JNull => "NoneType"
  | JBool _ => "bool"
  | JInt _ => "int"
  | JFloat _ => "float"
  | JStr _ => "str"
  | JList _ => "list"
  | JDict _ => "dict"
  end.

(** [d.get(key, default)]; only a [dict] has the method. *)
Definition get (d : json) (key : string) (default : json) : Res json :=
  match d with
  | JDict items => inr (from_option id default (assoc_get key items))
  | _ => raise (Exn AttributeError
                  ("'" +:+ py_type_name d +:+ "' object has no attribute 'get'"))
  end.

(** Truth value of an object in an [if]. *)
Definition truthy (v : json) : bool :=
  match v with
  | JNull => false
  | JBool v => v
  | JInt n => negb (n =? 0)
  | JFloat x => negb (PrimFloat.eqb x 0%float)
  | JStr s => negb (bool_decide (s = ""))
  | JList l => negb (bool_decide (length l = 0%nat))
  | JDict items => negb (bool_decide (length items = 0%nat))
  end.

Definition truthy_bytes (o : option bytes) : bool :=
  match o with
  | Some (_ :: _) => true
  | _ => false
  end.

(** [v == s] for a [str] literal [s]. *)
Definition eq_str (v : json) (s : string) : bool :=
  match v with
  | JStr s' => bool_decide (s' = s)
  | _ => false
  end.

Definition is_list (v : json) : bool := match v with JList _ => true | _ => false end.
Definition is_str (v : json) : bool := match v with JStr _ => true | _ => false end.

(** [v[0]]. The keys of a [dict] read from JSON are strings, so [0] is never
    one of them. *)
Definition index0 (v : json) : Res json :=
  match v with
  | JList l => getitem l 0
  | JStr (String c s) => inr (JStr (first_char c s))
  | JStr EmptyString => raise (Exn IndexError "string index out of range")
  | JDict _ => raise (Exn KeyError "0")
  | _ => raise (Exn TypeError
                  ("'" +:+ py_type_name v +:+ "' object is not subscriptable"))
  end.

(** [v.upper()]. *)
Definition upper_of (v : json) : Res string :=
  match v with
  | JStr s => inr (upper s)
  | _ => raise (Exn AttributeError
                  ("'" +:+ py_type_name v +:+ "' object has no attribute 'upper'"))
  end.

(** ** Conversion results (the dictionaries [decrypt_ncm] returns) *)

Inductive result :=
  | Success (file output : string) (title artist album : json)
            (format cover : string)
  | Failure (file error : string).

Definition success (r : result) : bool :=
  match r with Success _ _ _ _ _ _ _ => true | Failure _ _ => false end.

Definition file_of (r : result) : string :=
  match r with Success file _ _ _ _ _ _ => file | Failure file _ => file end.

Definition error_of (r : result) : option string :=
  match r with Success _ _ _ _ _ _ _ => None | Failure _ error => Some error end.

(** ** The file system and the monad of the function body

    A file system maps a path to the content of the regular file there.
    Opening a missing file for reading raises.  Opening a file for writing
    can be refused, by Python or by the operating system: what is refused
    is a parameter of the run, [refusal].  Other I/O failures (a read error,
    a full disk) are outside the model.  The input handle [f] holds the
    bytes not yet read: [read] takes from the front, a relative [seek]
    forward drops, and reading at the end gives [b'']. *)

Abbreviation filesystem := (gmap Path (list Z)).

Record state := mkState { fs : filesystem; f : bytes }.

Inductive ctl (A : Type) :=
  | Normal (a : A)        (* execution continues with a value *)
  | Return (r : result)   (* a [return] statement was executed *)
  | Raise (e : exn).      (* an exception is propagating *)
Arguments Normal {A} a.
Arguments Return {A} r.
Arguments Raise {A} e.

Definition M (A : Type) : Type := state → ctl A * state.

Definition ret {A} (a : A) : M A := λ σ, (Normal a, σ).
Definition return_ {A} (r : result) : M A := λ σ, (Return r, σ).
Definition throw {A} (e : exn) : M A := λ σ, (Raise e, σ).

Definition bind {A B} (m : M A) (k : A → M B) : M B := λ σ,
  match m σ with
  | (Normal a, σ') => k a σ'
  | (Return r, σ') => (Return r, σ')
  | (Raise e, σ') => (Raise e, σ')
  end.

Definition lift {A} (r : Res A) : M A :=
  match r with
  | inl e => throw e
  | inr a => ret a
  end.

(** [try: body except ...: handler(e)], for a handler that catches every
    exception of the model: [except Exception] and the bare [except].  The
    exceptions of the model, those the libraries raise included, are all
    subclasses of [Exception]; an interrupt of the interpreter is not one of
    them. *)
Definition try_except {A} (body : M A) (handler : exn → M A) : M A := λ σ,
  match body σ with
  | (Raise e, σ') => handler e σ'
  | other => other
  end.

Declare Scope m_scope.
Delimit Scope m_scope with M.
Notation "x <- m ;; k" := (bind m (fun x => k))
  (at level 100, m at next level, right associativity) : m_scope.
Notation "m ;; k" := (bind m (fun _ => k))
  (at level 100, right associativity) : m_scope.

(** *** File operations *)

(** [open(path, 'rb')]: the handle starts at the first byte. *)
Definition open_rb (path : Path) : M unit := λ σ,
  match fs σ !! path with
  | Some content => (Normal tt, mkState (fs σ) content)
  | None =>
      (Raise (Exn FileNotFoundError
                ("[Errno 2] No such file or directory: '" +:+ str_path path +:+ "'")), σ)
  end.

(** [f.read(n)] *)
Definition read (n : Z) : M bytes := λ σ,
  (Normal (take (Z.to_nat n) (f σ)), mkState (fs σ) (drop (Z.to_nat n) (f σ))).

(** [f.seek(n, 1)] *)
Definition seek (n : Z) : M unit := λ σ,
  (Normal tt, mkState (fs σ) (drop (Z.to_nat n) (f σ))).

(** [open(path, 'wb')].  The call can be refused: by Python itself for a
    path that holds a NUL byte ([ValueError: embedded null byte]), by the
    operating system for a name that is too long, a directory at the path or
    a missing permission ([OSError]).  [refusal path] is the exception the
    call raises for [path], if any; nothing is created then.  When there is
    none, the file is created, or emptied if it exists. *)
Definition open_wb (refusal : Path → option exn) (path : Path) : M unit := λ σ,
  match refusal path with
  | Some e => (Raise e, σ)
  | None => (Normal tt, mkState (<[path := []]> (fs σ)) (f σ))
  end.

(** Two environments: one that refuses no open, and one that refuses what
    Python itself refuses, a path with a NUL byte in it. *)
Definition no_refusal : Path → option exn := λ _, None.

Definition nul_refusal : Path → option exn := λ path,
  if str_contains "000" (str_path path)
  then Some (Exn ValueError "embedded null byte") else None.

(** [path.unlink(missing_ok=True)] *)
Definition unlink (path : Path) : M unit := λ σ,
  (Normal tt, mkState (delete path (fs σ)) (f σ)).

(** ** The stream decryptor (lines 119-127) *)

(** One iteration of the loop of lines 124-126, on [(chunk, stream_index)]. *)
Definition xor_body (key_stream : list Z) (i : Z) (st : bytes * Z)
  : Res (bytes * Z) :=
  (let '(chunk, stream_index) := st in
   c <- getitem chunk i ;;
   k <- getitem key_stream stream_index ;;
   chunk <- setitem chunk i (Z.lxor c k) ;;
   inr (chunk, Z.land (stream_index + 1) 0xff))%res.

Definition xor_chunk (key_stream : list Z) (chunk : bytes) (stream_index : Z)
  : Res (bytes * Z) :=
  for_in (range (length chunk)) (xor_body key_stream) (chunk, stream_index).

(** The [while True] loop over the values [reads] that the successive calls
    [f.read(0x8000)] return before the end of the file; [out] is what has
    been written so far.  The loop ends at the first empty read.  The result
    is the output written and either the final [stream_index] or the
    exception that stopped the loop. *)
Fixpoint decrypt_stream (key_stream : list Z) (reads : list bytes)
    (stream_index : Z) (out : bytes) : bytes * Res Z :=
  match reads with
  | [] => (out, inr stream_index)
  | chunk :: reads' =>
      match chunk with
      | [] => (out, inr stream_index)
      | _ :: _ =>
          match xor_chunk key_stream chunk stream_index with
          | inl e => (out, inl e)
          | inr (chunk', stream_index') =>
              decrypt_stream key_stream reads' stream_index' (out ++ chunk')
          end
      end
  end.

(** What [f.read(n)] returns call after call on a regular file holding
    [rest], up to the end of the file.  Every read before the end returns at
    least one byte, so [length rest] calls are enough. *)
Fixpoint reads_upto (fuel n : nat) (rest : bytes) : list bytes :=
  match fuel with
  | O => []
  | S fuel' =>
      match take n rest with
      | [] => []
      | chunk => chunk :: reads_upto fuel' n (drop n rest)
      end
  end.

Definition file_reads (n : Z) (rest : bytes) : list bytes :=
  reads_upto (length rest) (Z.to_nat n) rest.

(** Lines 118-127 on the state: the output file is opened, the payload left
    in [f] is decrypted into it, and both files are closed. *)
Definition write_payload (refusal : Path → option exn) (key_stream : list Z)
    (output_path : Path) : M unit :=
  (open_wb refusal output_path ;;
   λ σ, let '(out, r) := decrypt_stream key_stream (file_reads 0x8000 (f σ)) 0 [] in
        let σ' := mkState (<[output_path := out]> (fs σ)) [] in
        match r with
        | inr _ => (Normal tt, σ')
        | inl e => (Raise e, σ')
        end)%M.

(** ** The output validator (lines 47-57) *)

Definition verify_output (fs : filesystem) (file_path : Path) (audio_format : json)
  : bool :=
  match fs !! file_path with
  | None => false                       (* [open] raises; [except: return False] *)
  | Some content =>
      let header := take 4 content in   (* f.read(4) *)
      if eq_str audio_format "flac" then bool_decide (header = b "fLaC")
      else if eq_str audio_format "mp3" then
        bool_decide (slice header None (Some 3) = b "ID3")
        || bool_decide (slice header None (Some 2) = [0xff; 0xfb])
        || bool_decide (slice header None (Some 2) = [0xff; 0xfa])
      else false
  end.

(** ** Library calls taken as parameters *)

(** What [PIL.Image.open] tells about a picture. *)
Record image := mkImage { img_format : option string; img_size : Z * Z }.

Record externals := mkExternals {
  (** [AES.new(key, AES.MODE_ECB).decrypt(data)] *)
  AES_decrypt : bytes → bytes → Res bytes;
  (** [base64.b64decode(data)] *)
  b64decode : bytes → Res bytes;
  (** [data.decode('utf-8')] *)
  decode_utf8 : bytes → Res string;
  (** [json.loads(text)] *)
  json_loads : string → Res json;
  (** [str(v)], as an f-string formats a value that is not a [str] *)
  py_str : json → string;
  (** lines 139-148: the picture fetched for a track identifier, if any *)
  fetch_cover : json → Res (option bytes);
  (** [Image.open(BytesIO(data))] *)
  Image_open : bytes → Res image;
  (** lines 159-166 and 168-172: the tag writers, from the mime type, the
      picture and the content of the output file to its new content and the
      exception raised, if any *)
  FLAC_add_picture : string → bytes → bytes → bytes * option exn;
  MP3_add_APIC : string → bytes → bytes → bytes * option exn
}.

(** [f'{v}'] *)
Definition fstr (E : externals) (v : json) : string :=
  match v with
  | JStr s => s
  | _ => py_str E v
  end.

(** ** [decrypt_ncm] (lines 60-201) *)

(** What lines 68-113 leave in the local variables. *)
Record parsed := mkParsed {
  key_stream : list Z;
  meta_data : json;
  image_data : option bytes
}.

Definition default_meta_data (file_path : Path) : json :=
  JDict [("format", JStr "mp3"); ("musicName", JStr (stem file_path));
         ("artist", JList []); ("album", JStr "Unknown"); ("musicId", JInt 0)].

(** Lines 68-113: the header check, the key block, the keystream table, the
    metadata block and the image block. *)
Definition read_container (E : externals) (file_path : Path) : M parsed :=
  (open_rb file_path ;;
   header <- read 8 ;;
   (if bool_decide (b2a_hex header ≠ b "4354454e4644414d")
    then return_ (Failure (name file_path) "Invalid NCM header")
    else ret tt) ;;
   seek 2 ;;
   buf <- read 4 ;;
   key_len <- lift (unpack_I buf) ;;
   key_data <- read key_len ;;
   key_data <- lift (xor_inplace 0x64 key_data) ;;
   key_data <- lift (AES_decrypt E core_key key_data) ;;
   key_data <- lift (unpad key_data) ;;
   let key_data := slice key_data (Some 17) None in
   key_stream <- lift (derive_key_stream key_data) ;;
   buf <- read 4 ;;
   meta_len <- lift (unpack_I buf) ;;
   meta_data <-
     (if 0 <? meta_len then
        meta_data <- read meta_len ;;
        meta_data <- lift (xor_inplace 0x63 meta_data) ;;
        meta_data <- lift (b64decode E (slice meta_data (Some 22) None)) ;;
        meta_data <- lift (AES_decrypt E meta_key meta_data) ;;
        meta_data <- lift (unpad meta_data) ;;
        text <- lift (decode_utf8 E meta_data) ;;
        lift (json_loads E (str_drop 6 text))
      else ret (default_meta_data file_path)) ;;
   seek 5 ;;
   buf <- read 4 ;;
   image_space <- lift (unpack_I buf) ;;
   buf <- read 4 ;;
   img_len <- lift (unpack_I buf) ;;
   image_data <-
     (if 0 <? img_len then d <- read img_len ;; ret (Some d) else ret None) ;;
   (if img_len <? image_space then seek (image_space - img_len) else ret tt) ;;
   ret (mkParsed key_stream meta_data image_data))%M.

(** Lines 115-127: the output path from the recovered format, and the
    decrypted payload written to it. *)
Definition write_output (refusal : Path → option exn) (E : externals)
    (file_path : Path) (p : parsed) : M (json * Path) :=
  (audio_format <- lift (get (meta_data p) "format" (JStr "mp3")) ;;
   output_path <- lift (with_suffix file_path ("." +:+ fstr E audio_format)) ;;
   write_payload refusal (key_stream p) output_path ;;
   ret (audio_format, output_path))%M.

(** Lines 129-131. *)
Definition check_output (file_path : Path) (audio_format : json)
    (output_path : Path) : M unit :=
  (λ σ, (if negb (verify_output (fs σ) output_path audio_format)
         then unlink output_path ;;
              return_ (Failure (name file_path) "Output verification failed")
         else ret tt) σ)%M.

(** Lines 159-166 and 168-172 on the state: a tag writer rewrites the output
    file in place. *)
Definition tag_output (writer : bytes → bytes * option exn) (output_path : Path)
  : M unit := λ σ,
  match fs σ !! output_path with
  | None =>
      (Raise (Exn (LibraryError "MutagenError")
                ("[Errno 2] No such file or directory: '" +:+ str_path output_path +:+ "'")), σ)
  | Some content =>
      let '(content', err) := writer content in
      let σ' := mkState (<[output_path := content']> (fs σ)) (f σ) in
      match err with
      | Some e => (Raise e, σ')
      | None => (Normal tt, σ')
      end
  end.

(** Lines 133-179: the cover picture, fetched or embedded, is written into
    the tags of the output; any exception on the way gives ["Failed"]. *)
Definition embed_cover (E : externals) (p : parsed) (audio_format : json)
    (output_path : Path) : M string :=
  try_except
    (music_id <- lift (get (meta_data p) "musicId" JNull) ;;
     cover_data <-
       (if truthy music_id then lift (fetch_cover E music_id) else ret None) ;;
     let embedded := negb (truthy_bytes cover_data) && truthy_bytes (image_data p) in
     let cover_data := if embedded then image_data p else cover_data in
     let cover_info := if embedded then "Embedded" else "None" in
     match cover_data with
     | Some (x :: data) =>
         let cover_data := x :: data in
         img <- lift (Image_open E cover_data) ;;
         let mime :=
           match img_format img with
           | Some (String c fmt) => "image/" +:+ lower (String c fmt)
           | _ => "image/jpeg"
           end in
         (if eq_str audio_format "flac" then
            tag_output (FLAC_add_picture E mime cover_data) output_path
          else if eq_str audio_format "mp3" then
            tag_output (MP3_add_APIC E mime cover_data) output_path
          else ret tt) ;;
         let size := pretty (img_size img).1 +:+ "x" +:+ pretty (img_size img).2 in
         ret (if bool_decide (cover_info ≠ "Embedded") then size
              else "Embedded " +:+ size)
     | _ => ret cover_info
     end)%M
    (λ _, ret "Failed").

(** Lines 181-187. *)
Definition artist_of (artist_data : json) : Res json :=
  (is_nested <-
     (if truthy artist_data
      then a0 <- index0 artist_data ;; inr (is_list a0) else inr false) ;;
   if is_nested : bool then
     a0 <- index0 artist_data ;;
     if truthy a0 then a0 <- index0 artist_data ;; index0 a0
     else inr (JStr "Unknown")
   else
     is_plain <-
       (if truthy artist_data
        then a0 <- index0 artist_data ;; inr (is_str a0) else inr false) ;;
     if is_plain : bool then index0 artist_data else inr (JStr "Unknown"))%res.

(** Lines 181-198. *)
Definition report (file_path : Path) (p : parsed) (audio_format : json)
    (output_path : Path) (cover_info : string) : M unit :=
  (artist_data <- lift (get (meta_data p) "artist" (JList [])) ;;
   artist <- lift (artist_of artist_data) ;;
   title <- lift (get (meta_data p) "musicName" (JStr "Unknown")) ;;
   album <- lift (get (meta_data p) "album" (JStr "Unknown")) ;;
   format <- lift (upper_of audio_format) ;;
   return_ (Success (name file_path) (name output_path) title artist album
              format cover_info))%M.

(** The body of the [try] statement, lines 64-198, in an environment that
    refuses the opens [refusal] says. *)
Definition decrypt_ncm_body_in (refusal : Path → option exn) (E : externals)
    (file_path : Path) : M unit :=
  (p <- read_container E file_path ;;
   out <- write_output refusal E file_path p ;;
   check_output file_path out.1 out.2 ;;
   cover_info <- embed_cover E p out.1 out.2 ;;
   report file_path p out.1 out.2 cover_info)%M.

(** Lines 68-127 alone: the state in which the validator is called. *)
Definition decrypted_output_in (refusal : Path → option exn) (E : externals)
    (file_path : Path) : M (parsed * (json * Path)) :=
  (p <- read_container E file_path ;;
   out <- write_output refusal E file_path p ;;
   ret (p, out))%M.

(** The same where no open is refused. *)
Definition decrypt_ncm_body (E : externals) (file_path : Path) : M unit :=
  decrypt_ncm_body_in no_refusal E file_path.

Definition decrypted_output (E : externals) (file_path : Path)
  : M (parsed * (json * Path)) :=
  decrypted_output_in no_refusal E file_path.

(** Lines 129-198, from that state on. *)
Definition finish (E : externals) (file_path : Path) (x : parsed * (json * Path))
  : M unit :=
  (check_output file_path x.2.1 x.2.2 ;;
   cover_info <- embed_cover E x.1 x.2.1 x.2.2 ;;
   report file_path x.1 x.2.1 x.2.2 cover_info)%M.

(** How a call of a function ends. *)
Inductive outcome :=
  | Returned (r : result)
  | ReturnedNone
  | Propagated (e : exn).

Definition call (body : M unit) (fs0 : filesystem) : outcome * filesystem :=
  match body (mkState fs0 []) with
  | (Return r, σ) => (Returned r, fs σ)
  | (Normal _, σ) => (ReturnedNone, fs σ)
  | (Raise e, σ) => (Propagated e, fs σ)
  end.

(** [decrypt_ncm(file_path)], run on a file system: how the call ends and
    the file system it leaves.  Line 61, [Path(file_path)], is outside the
    [try] and cannot raise on a path; line 200 catches everything the body
    raises. *)
Definition decrypt_ncm_in (refusal : Path → option exn) (E : externals)
    (file_path : Path) (fs0 : filesystem) : outcome * filesystem :=
  call (try_except (decrypt_ncm_body_in refusal E file_path)
          (λ e, return_ (Failure (name file_path) (str_exn e)))) fs0.

(** The call where the output file can be opened: no open is refused. *)
Definition decrypt_ncm (E : externals) (file_path : Path) (fs0 : filesystem)
  : outcome * filesystem :=
  decrypt_ncm_in no_refusal E file_path fs0.

(** The path line 116 forms and line 118 opens, if the call gets that far:
    the container is parsed, the metadata is an object, and [with_suffix]
    accepts the format as a suffix. *)
Definition reached_output (E : externals) (file_path : Path) (fs0 : filesystem)
  : option Path :=
  match read_container E file_path (mkState fs0 []) with
  | (Normal p, _) =>
      match get (meta_data p) "format" (JStr "mp3") with
      | inr audio_format =>
          match with_suffix file_path ("." +:+ fstr E audio_format) with
          | inr output_path => Some output_path
          | inl _ => None
          end
      | inl _ => None
      end
  | _ => None
  end.

(** ** The keystream table as the specification words it (section 4.4)

    A second definition, following the specification's text and not the
    code: the permutation starts as the identity, one forward pass swaps
    [box[i]] and [box[j]], and the table is read off through the [k1]/[k2]
    index chase, all arithmetic being [mod 256]. *)
Module KeystreamSpec.

Definition identity_box : list Z := Z.of_nat <$> seq 0 256.

(** [box[i]] *)
Definition at_ (box : list Z) (i : Z) : Z := box !!! Z.to_nat i.

(** [box] with the entries at [i] and [j] exchanged. *)
Definition swap (box : list Z) (i j : Z) : list Z :=
  imap (λ k x, if decide (Z.of_nat k = i) then at_ box j
               else if decide (Z.of_nat k = j) then at_ box i
               else x) box.

(** [key[i mod key_length]] *)
Definition key_at (key : bytes) (i : Z) : Z := at_ key (i `mod` len key).

(** The permutation and the accumulator after the steps [i = 0 .. n-1] of
    the forward pass. *)
Fixpoint forward_pass (key : bytes) (n : nat) : list Z * Z :=
  match n with
  | O => (identity_box, 0)
  | S n' =>
      let '(box, j) := forward_pass key n' in
      let i := Z.of_nat n' in
      let j := (j + at_ box i + key_at key i) `mod` 256 in
      (swap box i j, j)
  end.

Definition table_entry (box : list Z) (i : Z) : Z :=
  let k1 := (i + 1) `mod` 256 in
  let k2 := (k1 + at_ box k1) `mod` 256 in
  at_ box ((at_ box k1 + at_ box k2) `mod` 256).

Definition table (key : bytes) : list Z :=
  table_entry (forward_pass key 256).1 <$> range 256.

End KeystreamSpec.

(** ** The stream transform as the specification words it (section 4.5)

    The byte at absolute payload position [pos + p] is XORed with
    [table[(pos + p) mod 256]]. *)
Definition keystream_xor (table : list Z) (pos : nat) (data : bytes) : bytes :=
  imap (λ p x, Z.lxor x (KeystreamSpec.at_ table (Z.of_nat (pos + p) `mod` 256))) data.

(** The fixed 8-byte signature of a container, [43 54 45 4E 46 44 41 4D]
    (section 6). *)
Definition magic_signature : bytes :=
  [0x43; 0x54; 0x45; 0x4E; 0x46; 0x44; 0x41; 0x4D].

(** ** A container without metadata, as the specification lays it out
    (section 4.1)

    The signature, two reserved bytes, the key block behind its length, a
    metadata length of zero, five reserved bytes, the two image lengths, the
    image, the padding up to [image_space], and the audio payload. *)
Record bare_container := mkBare {
  reserved2 : bytes;
  key_len_field : bytes;
  key_block : bytes;
  meta_len_field : bytes;
  reserved5 : bytes;
  image_space_field : bytes;
  img_len_field : bytes;
  embedded_image : bytes;
  image_padding : bytes;
  payload : bytes
}.

Definition container_bytes (c : bare_container) : bytes :=
  magic_signature ++ reserved2 c ++ key_len_field c ++ key_block c
  ++ meta_len_field c ++ reserved5 c ++ image_space_field c
  ++ img_len_field c ++ embedded_image c ++ image_padding c ++ payload c.

Definition well_formed (c : bare_container) : Prop :=
  length (reserved2 c) = 2%nat
  ∧ unpack_I (key_len_field c) = inr (len (key_block c))
  ∧ unpack_I (meta_len_field c) = inr 0
  ∧ length (reserved5 c) = 5%nat
  ∧ unpack_I (img_len_field c) = inr (len (embedded_image c))
  ∧ ∃ image_space,
      unpack_I (image_space_field c) = inr image_space
      ∧ len (image_padding c) = Z.max 0 (image_space - len (embedded_image c)).

(** The MP3 signatures of section 4.5. *)
Definition mp3_signature (audio : bytes) : Prop :=
  b "ID3" `prefix_of` audio
  ∨ [0xff; 0xfb] `prefix_of` audio
  ∨ [0xff; 0xfa] `prefix_of` audio.

(** ** A stand-in for the libraries

    Used only to run the embedding on concrete files: the cipher and the
    decoders hand their input back, [json.loads] answers the document [doc],
    no picture is fetched, every picture is a 3x4 PNG, and a tag writer
    appends one byte to the file. *)
Definition stub_libraries (doc : json) : externals :=
  {| AES_decrypt := λ _ data, inr data;
     b64decode := λ data, inr data;
     decode_utf8 := λ _, inr "";
     json_loads := λ _, inr doc;
     py_str := λ _, "";
     fetch_cover := λ _, inr None;
     Image_open := λ _, inr (mkImage (Some "PNG") (3, 4));
     FLAC_add_picture := λ _ _ content, (content ++ [0], None);
     MP3_add_APIC := λ _ _ content, (content ++ [0], None) |}.

(** A small container for the stand-in libraries.  [pack_I] is
    [struct.pack('<I', n)].  The key block is, XORed with [0x64], a 17-byte
    prefix, the key material [1 2 3] and twelve bytes of padding; the
    metadata block, when there is one, is, XORed with [0x63], a 22-byte
    prefix and one block of padding. *)
Definition pack_I (n : Z) : bytes :=
  [n `mod` 256; (n `div` 2 ^ 8) `mod` 256; (n `div` 2 ^ 16) `mod` 256;
   (n `div` 2 ^ 24) `mod` 256].

Definition sample_key_block : bytes :=
  (λ x, Z.lxor x 0x64) <$> (replicate 17 0 ++ [1; 2; 3] ++ replicate 12 12).

Definition sample_meta_block : bytes :=
  (λ x, Z.lxor x 0x63) <$> (replicate 22 0 ++ replicate 16 16).

Definition sample_container (with_meta : bool) (image payload : bytes) : bytes :=
  magic_signature ++ [0; 0]
  ++ pack_I (len sample_key_block) ++ sample_key_block
  ++ (if with_meta then pack_I (len sample_meta_block) ++ sample_meta_block
      else pack_I 0)
  ++ [0; 0; 0; 0; 0]
  ++ pack_I (len image) ++ pack_I (len image) ++ image
  ++ payload.

Definition song : Path := mkPath "music" "song.ncm".

(** A directory holding only [song], with the given content. *)
Definition sample_fs (content : bytes) : filesystem := {[ song := content ]}.

(** The format [a<NUL>b], which no file name can hold. *)
Definition nul_format : string := String "a" (String "000" (String "b" "")).

(** Another stand-in, for the metadata text: the UTF-8 decoder answers
    [text], and [json.loads] reads [source] as the document [doc] and
    nothing else. *)
Definition text_libraries (text source : string) (doc : json) : externals :=
  {| AES_decrypt := λ _ data, inr data;
     b64decode := λ data, inr data;
     decode_utf8 := λ _, inr text;
     json_loads := λ s,
       if decide (s = source) then inr doc
       else raise (Exn (LibraryError "JSONDecodeError")
                     "Expecting value: line 1 column 1 (char 0)");
     py_str := λ _, "";
     fetch_cover := λ _, inr None;
     Image_open := λ _, inr (mkImage (Some "PNG") (3, 4));
     FLAC_add_picture := λ _ _ content, (content ++ [0], None);
     MP3_add_APIC := λ _ _ content, (content ++ [0], None) |}.

(** ** The worker count (lines 40-44)

    [os.cpu_count()] answers [None] or a number; [x or 4] is [4] when [x]
    is [None] or zero. *)
Definition get_worker_count (os_cpu_count : option Z) : Z :=
  let cpu_count :=
    match os_cpu_count with
    | Some n => if n =? 0 then 4 else n
    | None => 4
    end in
  if 4 <=? cpu_count then cpu_count - 2 else Z.max 1 (cpu_count - 1).

(** ** The report of [main] (lines 217-235)

    [completed] holds the results in the order [as_completed] yields them.
    The state of the loop is the two counters and the lines printed. *)
Record report_state := mkReport {
  success_count : Z;
  fail_count : Z;
  printed : list string
}.

Fixpoint str_repeat (s : string) (n : nat) : string :=
  match n with
  | O => ""
  | S n' => s +:+ str_repeat s n'
  end.

(** Lines 224-233: one turn of the loop. *)
Definition report_result (E : externals) (st : report_state) (r : result)
  : report_state :=
  match r with
  | Success _ _ title artist _ format cover =>
      mkReport (success_count st + 1) (fail_count st)
        (printed st
         ++ [fstr E title +:+ " - " +:+ fstr E artist +:+ "." +:+ lower format
               +:+ " - Success";
             "Cover: " +:+ cover;
             str_repeat "-" 50])
  | Failure file error =>
      mkReport (success_count st) (fail_count st + 1)
        (printed st
         ++ [file +:+ " - Failed: " +:+ error; str_repeat "-" 50])
  end.

(** Lines 217-235: the counters start at zero, every completed result is
    reported, and the totals are printed. *)
Definition report_all (E : externals) (n_files : Z) (completed : list result)
  : report_state :=
  let st := foldl (report_result E) (mkReport 0 0 []) completed in
  mkReport (success_count st) (fail_count st)
    (printed st
     ++ ["Total: " +:+ pretty n_files +:+ " | Success: " +:+ pretty (success_count st)
           +:+ " | Fail: " +:+ pretty (fail_count st)]).

(** ** A container with a metadata block (lines 68-113)

    The fields in the order the parser reads them: the signature, two
    skipped bytes, the key block behind its length, the metadata block
    behind its length, five skipped bytes, the two image lengths, the image,
    the padding up to [image_space], and the audio payload. *)
Definition tagged_container_bytes (c : bare_container) (meta_block : bytes)
  : bytes :=
  magic_signature ++ reserved2 c ++ key_len_field c ++ key_block c
  ++ meta_len_field c ++ meta_block ++ reserved5 c ++ image_space_field c
  ++ img_len_field c ++ embedded_image c ++ image_padding c ++ payload c.

Definition well_formed_tagged (c : bare_container) (meta_block : bytes) : Prop :=
  length (reserved2 c) = 2%nat
  ∧ unpack_I (key_len_field c) = inr (len (key_block c))
  ∧ meta_block ≠ []
  ∧ unpack_I (meta_len_field c) = inr (len meta_block)
  ∧ length (reserved5 c) = 5%nat
  ∧ unpack_I (img_len_field c) = inr (len (embedded_image c))
  ∧ ∃ image_space,
      unpack_I (image_space_field c) = inr image_space
      ∧ len (image_padding c) = Z.max 0 (image_space - len (embedded_image c)).

(** Line 156: the mime type of a picture. *)
Definition mime_of (img : image) : string :=
  match img_format img with
  | Some (String c fmt) => "image/" +:+ lower (String c fmt)
  | _ => "image/jpeg"
  end.

(** Lines 175 and 177: [f"{img.size[0]}x{img.size[1]}"]. *)
Definition size_of (img : image) : string :=
  pretty (img_size img).1 +:+ "x" +:+ pretty (img_size img).2.

(** ** Two properties of steps

    A step keeps the file system when no run of it changes a file, and its
    returns satisfy [P] when every [return] it executes gives a result in
    [P]. *)
Definition keeps_fs {A} (m : M A) : Prop :=
  ∀ σ x σ', m σ = (x, σ') → fs σ' = fs σ.

Definition returns_sat {A} (P : result → Prop) (m : M A) : Prop :=
  ∀ σ r σ', m σ = (Return r, σ') → P r.

(** * Properties *)

(** ** Text and its code points *)

Lemma append_cons (c : ascii) (s t : string) :
  String c s +:+ t = String c (s +:+ t).
Proof. reflexivity. Qed.

Lemma append_nil (t : string) : "" +:+ t = t.
Proof. reflexivity. Qed.

Lemma is_continuation_chr (x : Z) :
  0 ≤ x < 256 → is_continuation (chr x) = bool_decide (128 ≤ x < 192).
Proof.
  intros Hx. unfold is_continuation, chr.
  rewrite Ascii.N_ascii_embedding by lia.
  destruct (N.leb_spec 128 (Z.to_N x)), (N.ltb_spec (Z.to_N x) 192);
    cbn [andb]; symmetry;
    ((apply bool_decide_eq_true; lia) || (apply bool_decide_eq_false; lia)).
Qed.

(** The encoding of a code point is a byte that starts it, followed by
    continuation bytes only. *)
Lemma utf8_char_shape (cp : Z) :
  code_point cp →
  ∃ c tail, utf8_char cp = String c tail
    ∧ is_continuation c = false
    ∧ (∀ s, skip_continuation (tail +:+ s) = skip_continuation s)
    ∧ (∀ s, take_continuation (tail +:+ s) = tail +:+ take_continuation s).
Proof.
  intros [Hlo Hhi]. unfold utf8_char.
  assert (∀ x, 0 ≤ x → is_continuation (chr (0x80 + x `mod` 64)) = true) as Hcont.
  { intros x Hx. pose proof (Z.mod_pos_bound x 64).
    rewrite is_continuation_chr by lia. apply bool_decide_eq_true. lia. }
  destruct (Z.ltb_spec cp 0x80); [|destruct (Z.ltb_spec cp 0x800);
    [|destruct (Z.ltb_spec cp 0x10000)]]; eexists _, _; (split; [done|]).
  - split; [|done].
    rewrite is_continuation_chr by lia. apply bool_decide_eq_false. lia.
  - assert (2 ≤ cp `div` 64 < 32).
    { split; [apply Z.div_le_lower_bound; lia|apply Z.div_lt_upper_bound; lia]. }
    split; [rewrite is_continuation_chr by lia; apply bool_decide_eq_false; lia|].
    split; intros s; rewrite !append_cons, append_nil;
      cbn [skip_continuation take_continuation]; by rewrite Hcont by lia.
  - assert (0 ≤ cp `div` 4096 < 16).
    { split; [apply Z.div_pos; lia|apply Z.div_lt_upper_bound; lia]. }
    assert (0 ≤ cp `div` 64) by (apply Z.div_pos; lia).
    split; [rewrite is_continuation_chr by lia; apply bool_decide_eq_false; lia|].
    split; intros s; rewrite !append_cons, append_nil;
      cbn [skip_continuation take_continuation]; by rewrite !Hcont by lia.
  - assert (0 ≤ cp `div` 262144 < 5).
    { split; [apply Z.div_pos; lia|apply Z.div_lt_upper_bound; lia]. }
    assert (0 ≤ cp `div` 64) by (apply Z.div_pos; lia).
    assert (0 ≤ cp `div` 4096) by (apply Z.div_pos; lia).
    split; [rewrite is_continuation_chr by lia; apply bool_decide_eq_false; lia|].
    split; intros s; rewrite !append_cons, append_nil;
      cbn [skip_continuation take_continuation]; by rewrite !Hcont by lia.
Qed.

Lemma utf8_cons cp cps : utf8 (cp :: cps) = utf8_char cp +:+ utf8 cps.
Proof. reflexivity. Qed.

(** An encoded text starts at a code point. *)
Lemma utf8_starts (cps : list Z) :
  Forall code_point cps →
  skip_continuation (utf8 cps) = utf8 cps ∧ take_continuation (utf8 cps) = "".
Proof.
  intros Hcps. destruct Hcps as [|cp cps Hcp _]; [done|].
  rewrite utf8_cons.
  destruct (utf8_char_shape cp Hcp) as (c & tail & -> & Hc & _).
  rewrite append_cons. cbn [skip_continuation take_continuation].
  by rewrite Hc.
Qed.

(** [s[n:]] drops [n] code points. *)
Lemma str_drop_utf8 (n : nat) (cps : list Z) :
  Forall code_point cps → str_drop n (utf8 cps) = utf8 (drop n cps).
Proof.
  revert cps. induction n as [|n IH]; intros cps Hcps.
  - rewrite drop_0. by destruct (utf8 cps).
  - destruct Hcps as [|cp cps Hcp Hcps]; [done|].
    rewrite utf8_cons.
    destruct (utf8_char_shape cp Hcp) as (c & tail & -> & _ & Hskip & _).
    rewrite append_cons. cbn [str_drop drop]. rewrite Hskip.
    rewrite (proj1 (utf8_starts cps Hcps)). by apply IH.
Qed.

(** [s[0]] is the first code point. *)
Lemma first_char_utf8 (cp : Z) (cps : list Z) :
  code_point cp → Forall code_point cps →
  ∃ c s, utf8 (cp :: cps) = String c s ∧ first_char c s = utf8 [cp].
Proof.
  intros Hcp Hcps. rewrite utf8_cons.
  destruct (utf8_char_shape cp Hcp) as (c & tail & Hshape & _ & _ & Htake).
  rewrite Hshape. exists c, (tail +:+ utf8 cps). split; [done|].
  unfold first_char. rewrite Htake, (proj2 (utf8_starts cps Hcps)).
  unfold utf8. cbn [foldr]. by rewrite Hshape, append_cons.
Qed.

(** ** Sequences *)

Lemma len_nonneg {A} (l : list A) : 0 ≤ len l.
Proof. unfold len. lia. Qed.

Lemma getitem_inr {A} (l : list A) (i : Z) (x : A) :
  0 ≤ i → l !! Z.to_nat i = Some x → getitem l i = inr x.
Proof.
  intros Hi Hx. unfold getitem, norm_index.
  destruct (Z.ltb_spec i 0); [lia|].
  destruct (Z.ltb_spec i 0); [lia|]. by rewrite Hx.
Qed.

Lemma getitem_total `{Inhabited A} (l : list A) (i : Z) :
  0 ≤ i < len l → getitem l i = inr (l !!! Z.to_nat i).
Proof.
  intros Hi. apply getitem_inr; [lia|].
  apply list_lookup_lookup_total_lt. unfold len in Hi. lia.
Qed.

Lemma setitem_inr {A} (l : list A) (i : Z) (v : A) :
  0 ≤ i < len l → setitem l i v = inr (<[Z.to_nat i := v]> l).
Proof.
  intros Hi. unfold setitem, norm_index.
  destruct (Z.ltb_spec i 0); [lia|].
  destruct (Z.leb_spec 0 i); [|lia].
  destruct (Z.ltb_spec i (len l)); [done|lia].
Qed.

Lemma getitem_last {A} (l : list A) : getitem l (-1) = from_option inr (raise (Exn IndexError "index out of range")) (last l).
Proof.
  unfold getitem, norm_index, len. simpl.
  destruct l as [|x l _] using rev_ind; [done|].
  rewrite last_snoc, length_app. simpl.
  destruct (Z.ltb_spec (-1 + Z.of_nat (length l + 1)) 0); [lia|].
  replace (Z.to_nat (-1 + Z.of_nat (length l + 1))) with (length l) by lia.
  by rewrite list_lookup_middle.
Qed.

Lemma range_length n : length (range n) = n.
Proof. unfold range. by rewrite length_fmap, length_seq. Qed.

Lemma range_S n : range (S n) = range n ++ [Z.of_nat n].
Proof. unfold range. by rewrite seq_S, fmap_app. Qed.

Lemma range_lookup n i : (i < n)%nat → range n !! i = Some (Z.of_nat i).
Proof.
  intros Hi. unfold range. rewrite list_lookup_fmap, lookup_seq_lt; done.
Qed.

Lemma for_in_app {S} (xs ys : list Z) (body : Z → S → Res S) (s : S) :
  for_in (xs ++ ys) body s = res_bind (for_in xs body s) (for_in ys body).
Proof.
  revert s. induction xs as [|x xs IH]; intros s; simpl; [done|].
  destruct (body x s); simpl; auto.
Qed.

Lemma land_0xff (x : Z) : Z.land x 0xff = x `mod` 256.
Proof. change 0xff with (Z.ones 8). by rewrite Z.land_ones. Qed.

Lemma slice_to {A} (l : list A) (n : Z) :
  0 ≤ n → slice l None (Some n) = take (Z.to_nat n) l.
Proof.
  intros Hn. unfold slice, clamp_index, len. simpl.
  destruct (Z.ltb_spec n 0); [lia|].
  rewrite Z.sub_0_r. change (Z.to_nat 0) with 0%nat. rewrite drop_0.
  destruct (Z.min_spec n (Z.of_nat (length l))) as [[? ->]|[? ->]]; [done|].
  rewrite Nat2Z.id. rewrite !take_ge by lia. done.
Qed.

Lemma slice_from {A} (l : list A) (n : Z) :
  0 ≤ n → slice l (Some n) None = drop (Z.to_nat n) l.
Proof.
  intros Hn. unfold slice, clamp_index, len. simpl.
  destruct (Z.ltb_spec n 0); [lia|].
  rewrite take_ge by (rewrite length_drop; lia).
  destruct (Z.min_spec n (Z.of_nat (length l))) as [[? ->]|[? ->]]; [done|].
  rewrite Nat2Z.id. rewrite !drop_ge by lia. done.
Qed.

(** ** Padding removal *)

Lemma unpad_last (s : bytes) (n : Z) :
  last s = Some n → unpad s = inr (slice s (Some 0) (Some (- n))).
Proof. intros Hn. unfold unpad. by rewrite getitem_last, Hn. Qed.

Lemma unpad_empty : unpad [] = raise (Exn IndexError "index out of range").
Proof. reflexivity. Qed.

(** A pad count of zero empties the buffer: [s[0:-0]] is [s[0:0]]. *)
Lemma unpad_zero (s : bytes) : last s = Some 0 → unpad s = inr [].
Proof.
  intros Hn. rewrite (unpad_last _ _ Hn).
  unfold slice, clamp_index. simpl. by rewrite Z.sub_diag.
Qed.

(** C4 (as amended): for a buffer whose last byte is a positive pad count
    [n], [unpad] returns normally with the buffer shortened by its last [n]
    bytes, which is all of it when [n] exceeds the length; no padding error
    is raised. *)
Theorem unpad_strips_pad_count (s : bytes) (n : Z) :
  last s = Some n → 0 < n →
  unpad s = inr (take (length s - Z.to_nat n) s).
Proof.
  intros Hlast Hn. rewrite (unpad_last _ _ Hlast).
  unfold slice, clamp_index, len. simpl.
  destruct (Z.ltb_spec (- n) 0); [|lia].
  change (Z.to_nat (0 `min` _)) with (Z.to_nat (0 `min` Z.of_nat (length s))).
  replace (Z.to_nat (0 `min` Z.of_nat (length s))) with 0%nat by lia.
  rewrite drop_0. do 2 f_equal. lia.
Qed.

Lemma unpad_strips_pad_count_witness :
  unpad [1; 2; 3; 4; 2] = inr [1; 2; 3] ∧ unpad [7; 7; 9] = inr [].
Proof.
  split.
  - exact (unpad_strips_pad_count [1; 2; 3; 4; 2] 2 eq_refl eq_refl).
  - exact (unpad_strips_pad_count [7; 7; 9] 9 eq_refl eq_refl).
Defined.

(** C4 (as stated) fails: a pad count larger than the buffer is not
    rejected, the call returns the empty byte string. *)
Lemma unpad_oversized_count_returns_empty : unpad [1; 2; 3; 200] = inr [].
Proof. reflexivity. Qed.

(** ** Keystream derivation *)

Section keystream.
Import KeystreamSpec.

Lemma swap_length box i j : length (swap box i j) = length box.
Proof. unfold swap. by rewrite length_imap. Qed.

(** The two stores of the tuple assignment exchange the two entries. *)
Lemma swap_stores (box : list Z) (i j : Z) :
  0 ≤ i < len box → 0 ≤ j < len box →
  <[Z.to_nat j := at_ box i]> (<[Z.to_nat i := at_ box j]> box) = swap box i j.
Proof.
  unfold len. intros Hi Hj. apply list_eq. intros k.
  unfold swap. rewrite list_lookup_imap.
  destruct (decide (k = Z.to_nat j)) as [->|Hkj].
  - rewrite list_lookup_insert_eq by (rewrite length_insert; lia).
    rewrite (list_lookup_lookup_total_lt box (Z.to_nat j)) by lia. simpl.
    rewrite Z2Nat.id by lia.
    destruct (decide (j = i)) as [->|]; [done|].
    by rewrite decide_True.
  - rewrite list_lookup_insert_ne by done.
    destruct (decide (k = Z.to_nat i)) as [->|Hki].
    + rewrite list_lookup_insert_eq by lia.
      rewrite (list_lookup_lookup_total_lt box (Z.to_nat i)) by lia. simpl.
      rewrite Z2Nat.id by lia. by rewrite decide_True.
    + rewrite list_lookup_insert_ne by done.
      destruct (box !! k) eqn:Hk; simpl; [|done].
      rewrite !decide_False by lia. done.
Qed.

Lemma forward_pass_invariant (key : bytes) (n : nat) :
  length (forward_pass key n).1 = 256%nat ∧ 0 ≤ (forward_pass key n).2 < 256.
Proof.
  induction n as [|n [IHlen IHj]]; simpl.
  - split; [done|lia].
  - destruct (forward_pass key n) as [box j]. simpl in *.
    rewrite swap_length. split; [done|]. apply Z.mod_pos_bound. lia.
Qed.

(** The first [n] iterations of the loop of lines 84-86 raise nothing and
    compute the forward pass of the specification. *)
Lemma ksa_prefix (key_data : bytes) (n : nat) :
  key_data ≠ [] → (n ≤ 256)%nat →
  for_in (range n) (ksa_body key_data) (range 256, 0)
  = inr (forward_pass key_data n).
Proof.
  intros Hkey. induction n as [|n IH]; intros Hn; [done|].
  rewrite range_S, for_in_app, IH by lia. simpl.
  destruct (forward_pass_invariant key_data n) as [Hlen Hj].
  destruct (forward_pass key_data n) as [box j]. simpl in Hlen, Hj.
  assert (0 < len key_data) as Hk.
  { unfold len. destruct key_data; [done|]. simpl. lia. }
  assert (len box = 256) as Hbox by (unfold len; lia).
  unfold ksa_body.
  rewrite (getitem_total box) by lia. simpl.
  unfold py_mod. destruct (Z.eqb_spec (len key_data) 0); [lia|]. simpl.
  rewrite (getitem_total key_data) by (apply Z.mod_pos_bound; lia). simpl.
  rewrite land_0xff.
  set (j' := (_ + _ + _) `mod` 256).
  assert (0 ≤ j' < 256) as Hj' by (apply Z.mod_pos_bound; lia).
  rewrite (getitem_total box j') by lia. simpl.
  rewrite setitem_inr by lia. simpl.
  rewrite setitem_inr by (unfold len; rewrite length_insert; lia). simpl.
  do 2 f_equal. apply swap_stores; lia.
Qed.

Lemma key_stream_prefix (box : list Z) (n : nat) :
  length box = 256%nat → (n ≤ 256)%nat →
  for_in (range n) (key_stream_body box) (replicate 256 0)
  = inr ((table_entry box <$> range n) ++ replicate (256 - n) 0).
Proof.
  intros Hlen. induction n as [|n IH]; intros Hn; [done|].
  rewrite range_S, for_in_app, IH by lia. cbn [res_bind for_in].
  assert (len box = 256) as Hbox by (unfold len; lia).
  unfold key_stream_body. rewrite !land_0xff.
  set (k1 := (_ + 1) `mod` 256).
  assert (0 ≤ k1 < 256) as Hk1 by (apply Z.mod_pos_bound; lia).
  rewrite (getitem_total box k1) by lia. cbn [res_bind]. rewrite ?land_0xff.
  set (k2 := (k1 + box !!! Z.to_nat k1) `mod` 256).
  assert (0 ≤ k2 < 256) as Hk2 by (apply Z.mod_pos_bound; lia).
  rewrite (getitem_total box k2) by lia. cbn [res_bind]. rewrite ?land_0xff.
  set (idx := (box !!! Z.to_nat k1 + box !!! Z.to_nat k2) `mod` 256).
  assert (0 ≤ idx < 256) as Hidx by (apply Z.mod_pos_bound; lia).
  rewrite (getitem_total box idx) by lia. cbn [res_bind].
  rewrite setitem_inr
    by (unfold len; rewrite length_app, length_fmap, range_length, length_replicate; lia).
  cbn [res_bind]. f_equal. rewrite fmap_app, <- app_assoc.
  rewrite insert_app_r_alt by (rewrite length_fmap, range_length; lia).
  rewrite length_fmap, range_length.
  replace (Z.to_nat (Z.of_nat n) - n)%nat with 0%nat by lia.
  replace (256 - n)%nat with (S (256 - S n)) by lia. done.
Qed.

End keystream.

(** The derived table has 256 entries, all of them bytes. *)
Lemma derive_key_stream_spec (key_data : bytes) :
  key_data ≠ [] → derive_key_stream key_data = inr (KeystreamSpec.table key_data).
Proof.
  intros Hkey. unfold derive_key_stream, ksa.
  rewrite ksa_prefix by (done || lia). cbn [res_bind].
  rewrite key_stream_prefix
    by (lia || apply (forward_pass_invariant key_data 256)).
  rewrite Nat.sub_diag. cbn [replicate]. by rewrite app_nil_r.
Qed.

(** C1: for every non-empty key, the table the code derives is the table of
    the specification (identity permutation, one forward pass with the
    accumulator [j] and the swap, then the [k1]/[k2] index chase, all
    [mod 256]); the derivation raises nothing and is a function of the key
    alone. *)
Theorem keystream_table_follows_spec (key_data : bytes) :
  key_data ≠ [] →
  derive_key_stream key_data = inr (KeystreamSpec.table key_data)
  ∧ length (KeystreamSpec.table key_data) = 256%nat
  ∧ ∀ key_data', key_data' = key_data →
      derive_key_stream key_data' = derive_key_stream key_data.
Proof.
  intros Hkey. split; [by apply derive_key_stream_spec|]. split.
  - unfold KeystreamSpec.table. by rewrite length_fmap, range_length.
  - by intros ? ->.
Qed.

Lemma keystream_table_follows_spec_witness :
  derive_key_stream [1; 2; 3] = inr (KeystreamSpec.table [1; 2; 3])
  ∧ length (KeystreamSpec.table [1; 2; 3]) = 256%nat
  ∧ ∀ key_data', key_data' = [1; 2; 3] →
      derive_key_stream key_data' = derive_key_stream [1; 2; 3].
Proof. apply (keystream_table_follows_spec [1; 2; 3]). discriminate. Defined.

(** ** The stream decryptor *)

Lemma keystream_xor_length table pos data :
  length (keystream_xor table pos data) = length data.
Proof. unfold keystream_xor. by rewrite length_imap. Qed.

Lemma keystream_xor_app table pos data1 data2 :
  keystream_xor table pos (data1 ++ data2)
  = keystream_xor table pos data1 ++ keystream_xor table (pos + length data1) data2.
Proof.
  unfold keystream_xor. rewrite imap_app. f_equal.
  apply imap_ext. intros p x _. simpl. do 3 f_equal. lia.
Qed.

Lemma keystream_xor_lookup table pos data (p : nat) x :
  data !! p = Some x →
  keystream_xor table pos data !! p
  = Some (Z.lxor x (KeystreamSpec.at_ table (Z.of_nat (pos + p) `mod` 256))).
Proof. intros Hx. unfold keystream_xor. by rewrite list_lookup_imap, Hx. Qed.

(** XOR with the same table at the same positions undoes itself. *)
Lemma keystream_xor_involutive table pos data :
  keystream_xor table pos (keystream_xor table pos data) = data.
Proof.
  apply list_eq. intros p. destruct (data !! p) as [x|] eqn:Hx.
  - rewrite (keystream_xor_lookup _ _ _ _ (Z.lxor x _) (keystream_xor_lookup _ _ _ _ _ Hx)).
    by rewrite Z.lxor_assoc, Z.lxor_nilpotent, Z.lxor_0_r.
  - apply lookup_ge_None. rewrite !keystream_xor_length.
    by apply lookup_ge_None.
Qed.

(** The first [k] iterations of the loop of lines 124-126 on one chunk, the
    chunk starting at payload position [pos]. *)
Lemma xor_chunk_prefix (key_stream : list Z) (chunk : bytes) (pos k : nat) :
  length key_stream = 256%nat → (k ≤ length chunk)%nat →
  for_in (range k) (xor_body key_stream) (chunk, Z.of_nat pos `mod` 256)
  = inr (keystream_xor key_stream pos (take k chunk) ++ drop k chunk,
         Z.of_nat (pos + k) `mod` 256).
Proof.
  intros Hks. induction k as [|k IH]; intros Hk.
  - cbn [range seq fmap list_fmap for_in]. rewrite take_0, drop_0, Nat.add_0_r. done.
  - rewrite range_S, for_in_app, IH by lia. cbn [res_bind for_in].
    destruct (lookup_lt_is_Some_2 chunk k) as [x Hx]; [lia|].
    unfold xor_body.
    assert (length (keystream_xor key_stream pos (take k chunk)) = k) as Hpre.
    { rewrite keystream_xor_length, length_take. lia. }
    rewrite (getitem_inr _ _ x); [|lia|].
    2:{ rewrite Nat2Z.id, lookup_app_r by lia.
        rewrite Hpre, Nat.sub_diag, lookup_drop, Nat.add_0_r. done. }
    cbn [res_bind].
    assert (0 ≤ Z.of_nat (pos + k) `mod` 256 < 256) as Hidx
      by (apply Z.mod_pos_bound; lia).
    rewrite (getitem_total key_stream) by (unfold len; lia). cbn [res_bind].
    rewrite setitem_inr
      by (unfold len; rewrite length_app, Hpre, length_drop; lia).
    cbn [res_bind]. f_equal. f_equal.
    + rewrite Nat2Z.id, insert_app_r_alt by lia.
      rewrite Hpre, Nat.sub_diag.
      rewrite (take_S_r _ _ x Hx), keystream_xor_app, <- app_assoc. f_equal.
      rewrite (drop_S _ x k Hx). cbn [insert list_insert].
      rewrite length_take, Nat.min_l by lia.
      unfold keystream_xor, KeystreamSpec.at_. cbn [imap app].
      by rewrite Nat.add_0_r.
    + rewrite land_0xff, Z.add_mod_idemp_l by lia. f_equal. lia.
Qed.

Lemma xor_chunk_spec (key_stream : list Z) (chunk : bytes) (pos : nat) :
  length key_stream = 256%nat →
  xor_chunk key_stream chunk (Z.of_nat pos `mod` 256)
  = inr (keystream_xor key_stream pos chunk,
         Z.of_nat (pos + length chunk) `mod` 256).
Proof.
  intros Hks. unfold xor_chunk. rewrite xor_chunk_prefix by (done || lia).
  by rewrite firstn_all, drop_all, app_nil_r.
Qed.

(** The whole loop: the index runs on from chunk to chunk. *)
Lemma decrypt_stream_spec (key_stream : list Z) (reads : list bytes)
    (pos : nat) (out : bytes) :
  length key_stream = 256%nat →
  Forall (λ chunk, chunk ≠ []) reads →
  decrypt_stream key_stream reads (Z.of_nat pos `mod` 256) out
  = (out ++ keystream_xor key_stream pos (concat reads),
     inr (Z.of_nat (pos + length (concat reads)) `mod` 256)).
Proof.
  intros Hks Hne. revert pos out.
  induction Hne as [|chunk reads Hchunk _ IH]; intros pos out.
  - cbn. by rewrite app_nil_r, Nat.add_0_r.
  - cbn [decrypt_stream concat]. destruct chunk as [|x chunk]; [done|].
    rewrite xor_chunk_spec by done. rewrite IH.
    rewrite keystream_xor_app, <- app_assoc, length_app. do 3 f_equal. lia.
Qed.

Lemma reads_upto_chunking (fuel n : nat) (rest : bytes) :
  (0 < n)%nat → (length rest ≤ fuel)%nat →
  concat (reads_upto fuel n rest) = rest
  ∧ Forall (λ chunk, chunk ≠ []) (reads_upto fuel n rest).
Proof.
  intros Hn. revert rest. induction fuel as [|fuel IH]; intros rest Hfuel.
  - destruct rest; [done|]. simpl in Hfuel. lia.
  - cbn [reads_upto]. destruct (take n rest) as [|x chunk] eqn:Htake.
    + destruct rest; [done|]. destruct n; [lia|]. done.
    + destruct (IH (drop n rest)) as [Hcat Hall].
      { rewrite length_drop. lia. }
      split.
      * cbn [concat]. rewrite Hcat, <- Htake. apply take_drop.
      * constructor; [done|exact Hall].
Qed.

(** The reads of a regular file are a chunking of what is left in it. *)
Lemma file_reads_chunking (n : Z) (rest : bytes) :
  0 < n →
  concat (file_reads n rest) = rest
  ∧ Forall (λ chunk, chunk ≠ []) (file_reads n rest).
Proof. intros Hn. apply reads_upto_chunking; lia. Qed.

(** The loop as the code runs it, on reads of [0x8000] bytes. *)
Lemma decrypt_file_payload (key_stream : list Z) (payload : bytes) :
  length key_stream = 256%nat →
  decrypt_stream key_stream (file_reads 0x8000 payload) 0 []
  = (keystream_xor key_stream 0 payload, inr (len payload `mod` 256)).
Proof.
  intros Hks. destruct (file_reads_chunking 0x8000 payload) as [Hcat Hne]; [lia|].
  change 0 with (Z.of_nat 0 `mod` 256) at 1.
  rewrite (decrypt_stream_spec key_stream _ 0 [] Hks Hne), Hcat. done.
Qed.

(** Lines 118-127 when the open is not refused: the output file holds the
    payload the handle held, XORed position by position with the table, and
    the handle is at the end of the input. *)
Lemma write_payload_opened refusal key_stream output_path fs1 payload :
  length key_stream = 256%nat →
  refusal output_path = None →
  write_payload refusal key_stream output_path (mkState fs1 payload)
  = (Normal tt,
     mkState (<[output_path := keystream_xor key_stream 0 payload]> fs1) []).
Proof.
  intros Hks Hopen. unfold write_payload, bind, open_wb. rewrite Hopen.
  cbn [fs f]. rewrite decrypt_file_payload by done. by rewrite insert_insert_eq.
Qed.

(** Line 118 when the open is refused: nothing is created. *)
Lemma write_payload_refused refusal key_stream output_path σ e :
  refusal output_path = Some e →
  write_payload refusal key_stream output_path σ = (Raise e, σ).
Proof. intros Hopen. unfold write_payload, bind, open_wb. by rewrite Hopen. Qed.



(** C3: decrypting with a table and running the result through the same
    transform again, in whatever chunks, gives the original bytes back. *)
Theorem stream_decrypt_involutive (key_stream : list Z) (reads reads' : list bytes) :
  length key_stream = 256%nat →
  Forall (λ chunk, chunk ≠ []) reads →
  Forall (λ chunk, chunk ≠ []) reads' →
  concat reads' = (decrypt_stream key_stream reads 0 []).1 →
  (decrypt_stream key_stream reads' 0 []).1 = concat reads.
Proof.
  intros Hks Hne Hne' Hcat.
  change 0 with (Z.of_nat 0 `mod` 256) in Hcat |- * at 1.
  rewrite (decrypt_stream_spec key_stream reads 0 [] Hks Hne) in Hcat.
  rewrite (decrypt_stream_spec key_stream reads' 0 [] Hks Hne'), Hcat.
  cbn [fst app]. apply keystream_xor_involutive.
Qed.

Lemma stream_decrypt_involutive_witness :
  (decrypt_stream (range 256) [[1]; [3; 1]] 0 []).1 = concat [[1; 2]; [3]].
Proof.
  apply (stream_decrypt_involutive (range 256) [[1; 2]; [3]] [[1]; [3; 1]]).
  - apply range_length.
  - repeat constructor; discriminate.
  - repeat constructor; discriminate.
  - reflexivity.
Defined.

(** ** The output validator *)

Lemma take_eq_prefix {A} (x l : list A) :
  take (length x) l = x ↔ x `prefix_of` l.
Proof.
  split.
  - intros Htake. exists (drop (length x) l).
    rewrite <- Htake at 1. by rewrite take_drop.
  - intros [k ->]. by rewrite take_app_length.
Qed.

Lemma verify_output_flac (fs0 : filesystem) (file_path : Path) (content : bytes) :
  fs0 !! file_path = Some content →
  verify_output fs0 file_path (JStr "flac") = true ↔ b "fLaC" `prefix_of` content.
Proof.
  intros Hfile. unfold verify_output. rewrite Hfile.
  change (eq_str (JStr "flac") "flac") with true. cbv iota.
  rewrite bool_decide_eq_true. apply (take_eq_prefix (b "fLaC")).
Qed.

Lemma verify_output_mp3 (fs0 : filesystem) (file_path : Path) (content : bytes) :
  fs0 !! file_path = Some content →
  verify_output fs0 file_path (JStr "mp3") = true ↔ mp3_signature content.
Proof.
  intros Hfile. unfold verify_output, mp3_signature. rewrite Hfile.
  change (eq_str (JStr "mp3") "flac") with false.
  change (eq_str (JStr "mp3") "mp3") with true. cbv iota.
  rewrite !slice_to by lia. rewrite !take_take.
  rewrite !orb_true_iff, !bool_decide_eq_true.
  change (Z.to_nat 3 `min` 4)%nat with (length (b "ID3")).
  change (Z.to_nat 2 `min` 4)%nat with (length [0xff; 0xfb]) at 1.
  change (Z.to_nat 2 `min` 4)%nat with (length [0xff; 0xfa]).
  rewrite !take_eq_prefix. tauto.
Qed.

(** C6: for [flac] the validator accepts exactly the streams that begin with
    [fLaC]; for [mp3] exactly those that begin with [ID3], [FF FB] or
    [FF FA]. *)
Theorem verify_output_signatures (fs0 : filesystem) (file_path : Path)
    (content : bytes) :
  fs0 !! file_path = Some content →
  (verify_output fs0 file_path (JStr "flac") = true
     ↔ b "fLaC" `prefix_of` content)
  ∧ (verify_output fs0 file_path (JStr "mp3") = true
     ↔ b "ID3" `prefix_of` content
       ∨ [0xff; 0xfb] `prefix_of` content
       ∨ [0xff; 0xfa] `prefix_of` content).
Proof.
  intros Hfile. split.
  - by apply verify_output_flac.
  - by apply verify_output_mp3.
Qed.

Lemma verify_output_signatures_witness :
  (verify_output {[ mkPath "" "a.flac" := b "fLaCdata" ]} (mkPath "" "a.flac") (JStr "flac") = true
     ↔ b "fLaC" `prefix_of` b "fLaCdata")
  ∧ (verify_output {[ mkPath "" "a.flac" := b "fLaCdata" ]} (mkPath "" "a.flac") (JStr "mp3") = true
     ↔ b "ID3" `prefix_of` b "fLaCdata"
       ∨ [0xff; 0xfb] `prefix_of` b "fLaCdata"
       ∨ [0xff; 0xfa] `prefix_of` b "fLaCdata").
Proof.
  apply (verify_output_signatures {[ mkPath "" "a.flac" := b "fLaCdata" ]}
           (mkPath "" "a.flac") (b "fLaCdata")).
  apply lookup_singleton_eq.
Defined.

(** A missing or unreadable output is rejected, and so is every format other
    than the two the validator knows. *)
Lemma verify_output_missing fs0 file_path audio_format :
  fs0 !! file_path = None → verify_output fs0 file_path audio_format = false.
Proof. intros Hnone. unfold verify_output. by rewrite Hnone. Qed.

Lemma verify_output_other_format fs0 file_path audio_format :
  eq_str audio_format "flac" = false → eq_str audio_format "mp3" = false →
  verify_output fs0 file_path audio_format = false.
Proof.
  intros Hflac Hmp3. unfold verify_output.
  destruct (fs0 !! file_path); [|done]. by rewrite Hflac, Hmp3.
Qed.

Lemma verify_output_is_str fs0 file_path audio_format :
  verify_output fs0 file_path audio_format = true →
  audio_format = JStr "flac" ∨ audio_format = JStr "mp3".
Proof.
  intros Hok.
  destruct (eq_str audio_format "flac") eqn:Hflac.
  - left. destruct audio_format; try discriminate. simpl in Hflac.
    by apply bool_decide_eq_true in Hflac as ->.
  - destruct (eq_str audio_format "mp3") eqn:Hmp3.
    + right. destruct audio_format; try discriminate. simpl in Hmp3.
      by apply bool_decide_eq_true in Hmp3 as ->.
    + by rewrite verify_output_other_format in Hok.
Qed.

(** ** The header check *)

Lemma hexdigit_inj (d d' : Z) : hexdigit d = hexdigit d' → d = d'.
Proof.
  unfold hexdigit.
  destruct (Z.ltb_spec d 10), (Z.ltb_spec d' 10); lia.
Qed.

(** A byte is determined by its two hexadecimal digits. *)
Lemma hex_pair_inj (x y : Z) :
  hexdigit (x `div` 16) = hexdigit (y `div` 16) →
  hexdigit (x `mod` 16) = hexdigit (y `mod` 16) → x = y.
Proof.
  intros Hhi%hexdigit_inj Hlo%hexdigit_inj.
  rewrite (Z.div_mod x 16), (Z.div_mod y 16) by lia. congruence.
Qed.

Lemma b2a_hex_cons x data :
  b2a_hex (x :: data)
  = hexdigit (x `div` 16) :: hexdigit (x `mod` 16) :: b2a_hex data.
Proof. reflexivity. Qed.

Lemma b2a_hex_inj (data data' : bytes) :
  b2a_hex data = b2a_hex data' → data = data'.
Proof.
  revert data'. induction data as [|x data IH]; intros [|y data'];
    rewrite ?b2a_hex_cons; try done.
  intros [= Hhi Hlo Hrest]. f_equal; [by apply hex_pair_inj | by apply IH].
Qed.

(** The comparison of line 70 accepts exactly the signature. *)
Lemma header_check (header : bytes) :
  b2a_hex header = b "4354454e4644414d" ↔ header = magic_signature.
Proof.
  split; [|by intros ->].
  intros Hhex. apply b2a_hex_inj. by rewrite Hhex.
Qed.

(** ** Running the function body *)

Lemma bind_Normal {A B} (m : M A) (k : A → M B) σ a σ' :
  m σ = (Normal a, σ') → bind m k σ = k a σ'.
Proof. intros Hm. unfold bind. by rewrite Hm. Qed.

Lemma bind_Return {A B} (m : M A) (k : A → M B) σ r σ' :
  m σ = (Return r, σ') → bind m k σ = (Return r, σ').
Proof. intros Hm. unfold bind. by rewrite Hm. Qed.

Lemma bind_Raise {A B} (m : M A) (k : A → M B) σ e σ' :
  m σ = (Raise e, σ') → bind m k σ = (Raise e, σ').
Proof. intros Hm. unfold bind. by rewrite Hm. Qed.

Lemma bind_assoc {A B C} (m : M A) (k : A → M B) (k' : B → M C) σ :
  bind (bind m k) k' σ = bind m (λ a, bind (k a) k') σ.
Proof. unfold bind. by destruct (m σ) as [[a|r|e] σ']. Qed.

Lemma bind_lift_inr {A B} (a : A) (k : A → M B) σ :
  bind (lift (inr a)) k σ = k a σ.
Proof. reflexivity. Qed.

Lemma bind_lift_inl {A B} (e : exn) (k : A → M B) σ :
  bind (lift (inl e)) k σ = (Raise e, σ).
Proof. reflexivity. Qed.

(** The ways a sequence of two steps can end. *)
Lemma bind_inv {A B} (m : M A) (k : A → M B) σ x σ' :
  bind m k σ = (x, σ') →
  (∃ a σ1, m σ = (Normal a, σ1) ∧ k a σ1 = (x, σ'))
  ∨ (∃ r, m σ = (Return r, σ') ∧ x = Return r)
  ∨ (∃ e, m σ = (Raise e, σ') ∧ x = Raise e).
Proof.
  unfold bind. destruct (m σ) as [[a|r|e] σ1]; intros Hk.
  - left. eauto.
  - right. left. injection Hk as <- <-. eauto.
  - right. right. injection Hk as <- <-. eauto.
Qed.

(** [decrypt_ncm] in terms of how its body ends. *)
Lemma decrypt_ncm_in_unfold refusal E file_path fs0 :
  decrypt_ncm_in refusal E file_path fs0
  = match decrypt_ncm_body_in refusal E file_path (mkState fs0 []) with
    | (Return r, σ) => (Returned r, fs σ)
    | (Raise e, σ) => (Returned (Failure (name file_path) (str_exn e)), fs σ)
    | (Normal _, σ) => (ReturnedNone, fs σ)
    end.
Proof.
  unfold decrypt_ncm_in, call, try_except.
  by destruct (decrypt_ncm_body_in refusal E file_path (mkState fs0 []))
    as [[a|r|e] σ].
Qed.

Lemma decrypt_ncm_unfold E file_path fs0 :
  decrypt_ncm E file_path fs0
  = match decrypt_ncm_body E file_path (mkState fs0 []) with
    | (Return r, σ) => (Returned r, fs σ)
    | (Raise e, σ) => (Returned (Failure (name file_path) (str_exn e)), fs σ)
    | (Normal _, σ) => (ReturnedNone, fs σ)
    end.
Proof. apply decrypt_ncm_in_unfold. Qed.

(** *** Steps that leave the file system alone *)

Lemma keeps_fs_bind {A B} (m : M A) (k : A → M B) :
  keeps_fs m → (∀ a, keeps_fs (k a)) → keeps_fs (bind m k).
Proof.
  intros Hm Hk σ x σ' Hrun.
  destruct (bind_inv _ _ _ _ _ Hrun) as [(a & σ1 & Hm1 & Hk1)|[(r & Hm1 & _)|(e & Hm1 & _)]].
  - rewrite (Hk _ _ _ _ Hk1). by apply (Hm _ _ _ Hm1).
  - by apply (Hm _ _ _ Hm1).
  - by apply (Hm _ _ _ Hm1).
Qed.

Lemma keeps_fs_lift {A} (r : Res A) : keeps_fs (lift r).
Proof. destruct r; intros σ x σ' [= _ <-]; done. Qed.

Lemma keeps_fs_ret {A} (a : A) : keeps_fs (ret a).
Proof. by intros σ x σ' [= _ <-]. Qed.

Lemma keeps_fs_return {A} (r : result) : keeps_fs (@return_ A r).
Proof. by intros σ x σ' [= _ <-]. Qed.

Lemma keeps_fs_read n : keeps_fs (read n).
Proof. by intros σ x σ' [= _ <-]. Qed.

Lemma keeps_fs_seek n : keeps_fs (seek n).
Proof. by intros σ x σ' [= _ <-]. Qed.

Lemma keeps_fs_open_rb path : keeps_fs (open_rb path).
Proof.
  intros σ x σ'. unfold open_rb.
  destruct (fs σ !! path); by intros [= _ <-].
Qed.

Lemma keeps_fs_if {A} (c : bool) (m1 m2 : M A) :
  keeps_fs m1 → keeps_fs m2 → keeps_fs (if c then m1 else m2).
Proof. by destruct c. Qed.

Create HintDb keeps_fs.
#[local] Hint Resolve keeps_fs_lift keeps_fs_ret keeps_fs_return keeps_fs_read
  keeps_fs_seek keeps_fs_open_rb : keeps_fs.
#[local] Hint Extern 1 (keeps_fs (bind _ _)) =>
  apply keeps_fs_bind; [|intros ?] : keeps_fs.
#[local] Hint Extern 1 (keeps_fs (if _ then _ else _)) =>
  apply keeps_fs_if : keeps_fs.

(** Parsing the container writes nothing. *)
Lemma read_container_keeps_fs E file_path : keeps_fs (read_container E file_path).
Proof. unfold read_container. auto 60 with keeps_fs. Qed.

(** *** The steps after the payload is written *)

Lemma tag_output_spec writer output_path σ x σ' :
  tag_output writer output_path σ = (x, σ') →
  (x = Normal tt ∨ ∃ e, x = Raise e)
  ∧ (∀ q, is_Some (fs σ !! q) → is_Some (fs σ' !! q))
  ∧ (∀ q, q ≠ output_path → fs σ' !! q = fs σ !! q).
Proof.
  unfold tag_output. intros Hrun.
  destruct (fs σ !! output_path) as [content|] eqn:Hfile.
  - destruct (writer content) as [content' err].
    assert (∀ q, is_Some (fs σ !! q)
                 → is_Some (<[output_path := content']> (fs σ) !! q)) as Hkeep.
    { intros q Hq. destruct (decide (q = output_path)) as [->|Hne].
      - rewrite lookup_insert_eq. eauto.
      - by rewrite lookup_insert_ne. }
    assert (∀ q, q ≠ output_path
                 → <[output_path := content']> (fs σ) !! q = fs σ !! q) as Hother.
    { intros q Hne. by rewrite lookup_insert_ne. }
    destruct err as [e|]; simplify_eq; cbn [fs]; (split; [|done]); eauto.
  - simplify_eq. split; [|done]. eauto.
Qed.

(** The cover step never raises and never returns from the function; it
    keeps every file, and changes at most the output file. *)
Lemma embed_cover_spec E p audio_format output_path σ :
  ∃ cover_info σ',
    embed_cover E p audio_format output_path σ = (Normal cover_info, σ')
    ∧ (∀ q, is_Some (fs σ !! q) → is_Some (fs σ' !! q))
    ∧ (∀ q, q ≠ output_path → fs σ' !! q = fs σ !! q).
Proof.
  assert (∀ writer (s : string), ∃ x σ',
    bind (tag_output writer output_path) (λ _, ret s) σ = (x, σ')
    ∧ (∀ r, x ≠ Return r)
    ∧ (∀ q, is_Some (fs σ !! q) → is_Some (fs σ' !! q))
    ∧ (∀ q, q ≠ output_path → fs σ' !! q = fs σ !! q)) as Htag.
  { intros writer s. unfold bind.
    destruct (tag_output writer output_path σ) as [x σ'] eqn:Hrun.
    destruct (tag_output_spec _ _ _ _ _ Hrun) as (Hx & Hkeep & Hother).
    destruct Hx as [->|[e ->]]; eexists _, σ'; split; try done. }
  assert (∃ x σ',
    match x with Return _ => False | _ => True end
    ∧ (∀ q, is_Some (fs σ !! q) → is_Some (fs σ' !! q))
    ∧ (∀ q, q ≠ output_path → fs σ' !! q = fs σ !! q)
    ∧ embed_cover E p audio_format output_path σ
      = match x with
        | Raise _ => (Normal "Failed", σ')
        | other => (other, σ')
        end) as (x & σ' & Hx & Hkeep & Hother & ->).
  { unfold embed_cover, try_except.
    destruct (get (meta_data p) "musicId" JNull) as [e|music_id];
      [by exists (Raise e), σ|].
    rewrite bind_lift_inr.
    set (fetched := if truthy music_id then lift (fetch_cover E music_id) else ret None).
    assert (∃ y, fetched σ = (y, σ) ∧ ∀ r, y ≠ Return r) as (y & Hy & Hyr).
    { unfold fetched. destruct (truthy music_id); [|by eexists].
      destruct (fetch_cover E music_id); by eexists. }
    destruct y as [cover_data|r|e]; [|by destruct (Hyr r)|].
    2:{ exists (Raise e), σ. by rewrite (bind_Raise _ _ _ _ _ Hy). }
    rewrite (bind_Normal _ _ _ _ _ Hy).
    set (embedded := negb (truthy_bytes cover_data) && truthy_bytes (image_data p)).
    destruct (if embedded then image_data p else cover_data) as [[|c0 data]|];
      try (by eexists (Normal _), σ).
    destruct (Image_open E (c0 :: data)) as [e|img];
      [by exists (Raise e), σ|].
    rewrite bind_lift_inr.
    set (mime := match img_format img with Some (String _ _ as s) => _ | _ => _ end).
    set (info := if bool_decide _ then _ else _).
    destruct (eq_str audio_format "flac").
    { destruct (Htag (FLAC_add_picture E mime (c0 :: data)) info)
        as (x & σ' & -> & Hx & Hkeep & Hother).
      exists x, σ'. destruct x; try done. by destruct (Hx r). }
    destruct (eq_str audio_format "mp3").
    { destruct (Htag (MP3_add_APIC E mime (c0 :: data)) info)
        as (x & σ' & -> & Hx & Hkeep & Hother).
      exists x, σ'. destruct x; try done. by destruct (Hx r). }
    by exists (Normal info), σ. }
  destruct x as [c|r|e]; [|done|]; eauto.
Qed.

Lemma decrypt_ncm_body_split E file_path σ :
  decrypt_ncm_body E file_path σ
  = bind (decrypted_output E file_path) (finish E file_path) σ.
Proof.
  unfold decrypt_ncm_body, decrypt_ncm_body_in, decrypted_output,
    decrypted_output_in, finish, bind.
  destruct (read_container E file_path σ) as [[p|r|e] σ1]; [|done..].
  by destruct (write_output no_refusal E file_path p σ1) as [[out|r|e] σ2].
Qed.

(** *** What a step can [return] *)

Lemma returns_sat_bind {A B} P (m : M A) (k : A → M B) :
  returns_sat P m → (∀ a, returns_sat P (k a)) → returns_sat P (bind m k).
Proof.
  intros Hm Hk σ r σ' Hrun.
  destruct (bind_inv _ _ _ _ _ Hrun) as [(a & σ1 & _ & Hk1)|[(r' & Hm1 & [= <-])|(e & _ & [=])]].
  - by apply (Hk _ _ _ _ Hk1).
  - by apply (Hm _ _ _ Hm1).
Qed.

Lemma returns_sat_lift {A} P (r : Res A) : returns_sat P (lift r).
Proof. by destruct r; intros σ r' σ' [=]. Qed.

Lemma returns_sat_ret {A} P (a : A) : returns_sat P (ret a).
Proof. by intros σ r σ' [=]. Qed.

Lemma returns_sat_return {A} (P : result → Prop) (r : result) :
  P r → returns_sat P (@return_ A r).
Proof. by intros Hr σ r' σ' [= <- _]. Qed.

Lemma returns_sat_read P n : returns_sat P (read n).
Proof. by intros σ r σ' [=]. Qed.

Lemma returns_sat_seek P n : returns_sat P (seek n).
Proof. by intros σ r σ' [=]. Qed.

Lemma returns_sat_unlink P path : returns_sat P (unlink path).
Proof. by intros σ r σ' [=]. Qed.

Lemma returns_sat_open_rb P path : returns_sat P (open_rb path).
Proof. intros σ r σ'. unfold open_rb. by destruct (fs σ !! path); intros [=]. Qed.

Lemma returns_sat_write_payload P refusal key_stream output_path :
  returns_sat P (write_payload refusal key_stream output_path).
Proof.
  intros σ r σ'. unfold write_payload, bind, open_wb.
  destruct (refusal output_path); [by intros [=]|].
  destruct (decrypt_stream _ _ _ _) as [out [e|idx]]; by intros [=].
Qed.

Lemma returns_sat_embed_cover P E p audio_format output_path :
  returns_sat P (embed_cover E p audio_format output_path).
Proof.
  intros σ r σ'.
  destruct (embed_cover_spec E p audio_format output_path σ) as (c & σ1 & -> & _).
  by intros [=].
Qed.

Lemma returns_sat_if {A} P (c : bool) (m1 m2 : M A) :
  returns_sat P m1 → returns_sat P m2 → returns_sat P (if c then m1 else m2).
Proof. by destruct c. Qed.

Create HintDb returns.
#[local] Hint Resolve returns_sat_lift returns_sat_ret returns_sat_read
  returns_sat_seek returns_sat_unlink returns_sat_open_rb
  returns_sat_write_payload returns_sat_embed_cover : returns.
#[local] Hint Extern 1 (returns_sat _ (bind _ _)) =>
  apply returns_sat_bind; [|intros ?] : returns.
#[local] Hint Extern 1 (returns_sat _ (if _ then _ else _)) =>
  apply returns_sat_if : returns.
#[local] Hint Extern 1 (returns_sat _ (return_ _)) =>
  apply returns_sat_return; reflexivity : returns.

(** Up to the validator the only [return] is the one that rejects the
    header. *)
Lemma decrypted_output_returns E file_path :
  returns_sat (λ r, r = Failure (name file_path) "Invalid NCM header")
    (decrypted_output E file_path).
Proof.
  unfold decrypted_output, decrypted_output_in, read_container, write_output.
  auto 80 with returns.
Qed.

Lemma check_output_returns file_path audio_format output_path :
  returns_sat (λ r, r = Failure (name file_path) "Output verification failed")
    (check_output file_path audio_format output_path).
Proof.
  intros σ r σ'. unfold check_output.
  destruct (verify_output _ _ _); cbn [negb]; [by intros [=]|].
  by intros [= <- _].
Qed.

Lemma check_output_eq file_path audio_format output_path σ :
  check_output file_path audio_format output_path σ
  = if verify_output (fs σ) output_path audio_format then (Normal tt, σ)
    else (Return (Failure (name file_path) "Output verification failed"),
          mkState (delete output_path (fs σ)) (f σ)).
Proof. unfold check_output. by destruct (verify_output _ _ _). Qed.

(** The last step ends the function: it raises, or returns a success that
    names the input and the output. *)
Lemma report_spec file_path p audio_format output_path cover_info σ :
  (∃ e, report file_path p audio_format output_path cover_info σ = (Raise e, σ))
  ∨ (∃ title artist album format,
       report file_path p audio_format output_path cover_info σ
       = (Return (Success (name file_path) (name output_path) title artist
                    album format cover_info), σ)).
Proof.
  unfold report.
  destruct (get (meta_data p) "artist" (JList [])) as [e|artist_data]; [left; by eexists|].
  rewrite bind_lift_inr.
  destruct (artist_of artist_data) as [e|artist]; [left; by eexists|].
  rewrite bind_lift_inr.
  destruct (get (meta_data p) "musicName" (JStr "Unknown")) as [e|title]; [left; by eexists|].
  rewrite bind_lift_inr.
  destruct (get (meta_data p) "album" (JStr "Unknown")) as [e|album]; [left; by eexists|].
  rewrite bind_lift_inr.
  destruct (upper_of audio_format) as [e|format]; [left; by eexists|].
  rewrite bind_lift_inr. right. by eexists _, _, _, _.
Qed.

(** From the written output on: a failed check deletes the output and
    returns the verification failure; a passed check keeps the output file,
    and the function then returns a success or fails on an exception. *)
Lemma finish_spec E file_path p audio_format output_path σ :
  if verify_output (fs σ) output_path audio_format then
    ∃ x σ', finish E file_path (p, (audio_format, output_path)) σ = (x, σ')
      ∧ is_Some (fs σ' !! output_path)
      ∧ ((∃ e, x = Raise e)
         ∨ (∃ title artist album format cover_info,
              x = Return (Success (name file_path) (name output_path) title
                            artist album format cover_info)))
  else
    finish E file_path (p, (audio_format, output_path)) σ
    = (Return (Failure (name file_path) "Output verification failed"),
       mkState (delete output_path (fs σ)) (f σ)).
Proof.
  unfold finish. cbn [fst snd].
  pose proof (check_output_eq file_path audio_format output_path σ) as Hcheck.
  destruct (verify_output (fs σ) output_path audio_format) eqn:Hok.
  - rewrite (bind_Normal _ _ _ _ _ Hcheck).
    destruct (embed_cover_spec E p audio_format output_path σ)
      as (cover_info & σ' & Hcover & Hkeep & _).
    rewrite (bind_Normal _ _ _ _ _ Hcover).
    assert (is_Some (fs σ' !! output_path)) as Hfile.
    { apply Hkeep. unfold verify_output in Hok.
      destruct (fs σ !! output_path); [eauto|done]. }
    destruct (report_spec file_path p audio_format output_path cover_info σ')
      as [[e ->]|(title & artist & album & format & ->)].
    + eexists _, σ'. split; [done|]. split; [done|]. left. eauto.
    + eexists _, σ'. split; [done|]. split; [done|]. right. by eexists _, _, _, _, _.
  - by rewrite (bind_Return _ _ _ _ _ Hcheck).
Qed.

(** ** The header check rejects *)

Lemma open_rb_eq path σ content :
  fs σ !! path = Some content →
  open_rb path σ = (Normal tt, mkState (fs σ) content).
Proof. intros Hfile. unfold open_rb. by rewrite Hfile. Qed.

Lemma read_container_bad_header E file_path fs0 content :
  fs0 !! file_path = Some content →
  take 8 content ≠ magic_signature →
  read_container E file_path (mkState fs0 [])
  = (Return (Failure (name file_path) "Invalid NCM header"),
     mkState fs0 (drop 8 content)).
Proof.
  intros Hfile Hbad. unfold read_container.
  rewrite (bind_Normal _ _ _ _ _ (open_rb_eq file_path (mkState fs0 []) content Hfile)).
  erewrite bind_Normal by reflexivity. cbn [fs f].
  change (Z.to_nat 8) with 8%nat.
  rewrite bool_decide_true by (by rewrite header_check).
  by erewrite bind_Return by reflexivity.
Qed.

(** C5: a file whose first eight bytes are not the signature (an empty file
    and a file shorter than eight bytes included) is rejected with
    ['Invalid NCM header'], whatever follows and whatever the libraries do,
    and nothing is written. *)
Theorem bad_magic_rejected E file_path fs0 content :
  fs0 !! file_path = Some content →
  take 8 content ≠ magic_signature →
  decrypt_ncm E file_path fs0
  = (Returned (Failure (name file_path) "Invalid NCM header"), fs0).
Proof.
  intros Hfile Hbad.
  rewrite decrypt_ncm_unfold, decrypt_ncm_body_split. unfold decrypted_output, decrypted_output_in.
  rewrite bind_assoc.
  by rewrite (bind_Return _ _ _ _ _ (read_container_bad_header E _ _ _ Hfile Hbad)).
Qed.

Lemma bad_magic_rejected_witness :
  let song := mkPath "music" "song.ncm" in
  let E := stub_libraries JNull in
  decrypt_ncm E song {[ song := [] ]}
  = (Returned (Failure "song.ncm" "Invalid NCM header"), {[ song := [] ]})
  ∧ decrypt_ncm E song {[ song := [0x43; 0x54; 0x45] ]}
    = (Returned (Failure "song.ncm" "Invalid NCM header"), {[ song := [0x43; 0x54; 0x45] ]})
  ∧ decrypt_ncm E song {[ song := b "ID3 not a container" ]}
    = (Returned (Failure "song.ncm" "Invalid NCM header"), {[ song := b "ID3 not a container" ]}).
Proof.
  intros song E. split; [|split].
  - apply (bad_magic_rejected E song _ []); [apply lookup_singleton_eq | discriminate].
  - apply (bad_magic_rejected E song _ [0x43; 0x54; 0x45]);
      [apply lookup_singleton_eq | discriminate].
  - apply (bad_magic_rejected E song _ (b "ID3 not a container"));
      [apply lookup_singleton_eq | discriminate].
Defined.

(** ** Every call returns a result *)

Lemma finish_ends E file_path x σ :
  ∃ y σ', finish E file_path x σ = (y, σ')
    ∧ ((∃ e, y = Raise e) ∨ (∃ r, y = Return r ∧ file_of r = name file_path)).
Proof.
  destruct x as [p [audio_format output_path]].
  pose proof (finish_spec E file_path p audio_format output_path σ) as Hfin.
  destruct (verify_output (fs σ) output_path audio_format).
  - destruct Hfin as (y & σ' & -> & _ & [[e ->]|(t & a & al & fm & c & ->)]);
      eexists _, _; (split; [done|]); [left|right]; eauto.
  - rewrite Hfin. eexists _, _. split; [done|]. right. eauto.
Qed.

(** The body of the [try] statement never runs off its end, and every
    result it returns names the input file. *)
Lemma decrypt_ncm_body_ends E file_path σ :
  ∃ y σ', decrypt_ncm_body E file_path σ = (y, σ')
    ∧ ((∃ e, y = Raise e) ∨ (∃ r, y = Return r ∧ file_of r = name file_path)).
Proof.
  rewrite decrypt_ncm_body_split. unfold bind.
  destruct (decrypted_output E file_path σ) as [[x|r|e] σ1] eqn:Hout.
  - apply finish_ends.
  - eexists _, _. split; [done|]. right. exists r. split; [done|].
    by rewrite (decrypted_output_returns E file_path _ _ _ Hout).
  - eexists _, _. split; [done|]. left. eauto.
Qed.


(** ** From the parsed container to the validator *)

Lemma bind_Normal_inv {A B} (m : M A) (k : A → M B) σ y σ' :
  bind m k σ = (Normal y, σ') →
  ∃ a σ1, m σ = (Normal a, σ1) ∧ k a σ1 = (Normal y, σ').
Proof.
  intros Hrun.
  destruct (bind_inv _ _ _ _ _ Hrun) as [?|[(r & _ & [=])|(e & _ & [=])]]; done.
Qed.

Lemma lift_Normal_inv {A} (r : Res A) σ a σ' :
  lift r σ = (Normal a, σ') → r = inr a ∧ σ' = σ.
Proof. destruct r; intros [= <- <-]; done. Qed.

(** A table that was derived has 256 entries. *)
Lemma derive_key_stream_length key_data key_stream :
  derive_key_stream key_data = inr key_stream → length key_stream = 256%nat.
Proof.
  destruct key_data as [|x key_data]; [discriminate|].
  rewrite derive_key_stream_spec by done. intros [= <-].
  unfold KeystreamSpec.table. by rewrite length_fmap, range_length.
Qed.

Lemma read_container_key_stream E file_path σ p σ' :
  read_container E file_path σ = (Normal p, σ') →
  length (key_stream p) = 256%nat.
Proof.
  unfold read_container. intros Hrun.
  repeat (apply bind_Normal_inv in Hrun as (? & ? & ? & Hrun); cbv beta in Hrun).
  injection Hrun as <- _. cbn [key_stream].
  match goal with
  | H : lift (derive_key_stream _) _ = _ |- _ =>
      apply lift_Normal_inv in H as [H _];
      exact (derive_key_stream_length _ _ H)
  end.
Qed.

(** Lines 115-127 when the output path can be formed: the output file holds
    the payload, XORed position by position with the table. *)
Lemma write_output_opened refusal E file_path p σ audio_format output_path :
  length (key_stream p) = 256%nat →
  get (meta_data p) "format" (JStr "mp3") = inr audio_format →
  with_suffix file_path ("." +:+ fstr E audio_format) = inr output_path →
  refusal output_path = None →
  write_output refusal E file_path p σ
  = (Normal (audio_format, output_path),
     mkState (<[output_path := keystream_xor (key_stream p) 0 (f σ)]> (fs σ)) []).
Proof.
  intros Hks Hget Hpath Hopen. unfold write_output.
  rewrite Hget, bind_lift_inr, Hpath, bind_lift_inr.
  destruct σ as [fs1 payload].
  by rewrite (bind_Normal _ _ _ _ _
                (write_payload_opened refusal _ output_path fs1 payload Hks Hopen)).
Qed.

Lemma write_output_eq E file_path p σ audio_format output_path :
  length (key_stream p) = 256%nat →
  get (meta_data p) "format" (JStr "mp3") = inr audio_format →
  with_suffix file_path ("." +:+ fstr E audio_format) = inr output_path →
  write_output no_refusal E file_path p σ
  = (Normal (audio_format, output_path),
     mkState (<[output_path := keystream_xor (key_stream p) 0 (f σ)]> (fs σ)) []).
Proof. intros Hks Hget Hpath. by apply write_output_opened. Qed.

(** Lines 115-116 when the output path cannot be formed. *)
Lemma write_output_bad_suffix refusal E file_path p σ audio_format e :
  get (meta_data p) "format" (JStr "mp3") = inr audio_format →
  with_suffix file_path ("." +:+ fstr E audio_format) = inl e →
  write_output refusal E file_path p σ = (Raise e, σ).
Proof.
  intros Hget Hpath. unfold write_output.
  by rewrite Hget, bind_lift_inr, Hpath, bind_lift_inl.
Qed.

(** Lines 115-118 when the output path is formed and the open refused. *)
Lemma write_output_refused refusal E file_path p σ audio_format output_path e :
  get (meta_data p) "format" (JStr "mp3") = inr audio_format →
  with_suffix file_path ("." +:+ fstr E audio_format) = inr output_path →
  refusal output_path = Some e →
  write_output refusal E file_path p σ = (Raise e, σ).
Proof.
  intros Hget Hpath Hopen. unfold write_output.
  rewrite Hget, bind_lift_inr, Hpath, bind_lift_inr.
  by rewrite (bind_Raise _ _ _ _ _
                (write_payload_refused refusal _ output_path σ e Hopen)).
Qed.

(** ** Validation decides *)

(** C7: if the validator rejects the decrypted output, the output file is
    deleted and the call returns the failure ['Output verification failed'];
    and a call returns a success only after the validator accepted the
    output, which is then still in place. *)
Theorem verification_failure_deletes_output E file_path fs0 :
  (∀ p audio_format output_path σ,
     decrypted_output E file_path (mkState fs0 [])
     = (Normal (p, (audio_format, output_path)), σ) →
     verify_output (fs σ) output_path audio_format = false →
     decrypt_ncm E file_path fs0
     = (Returned (Failure (name file_path) "Output verification failed"),
        delete output_path (fs σ))
     ∧ delete output_path (fs σ) !! output_path = None)
  ∧ (∀ r fs', decrypt_ncm E file_path fs0 = (Returned r, fs') →
       success r = true →
       ∃ p audio_format output_path σ,
         decrypted_output E file_path (mkState fs0 [])
         = (Normal (p, (audio_format, output_path)), σ)
         ∧ verify_output (fs σ) output_path audio_format = true
         ∧ is_Some (fs' !! output_path)).
Proof.
  split.
  - intros p audio_format output_path σ Hout Hbad.
    rewrite decrypt_ncm_unfold, decrypt_ncm_body_split.
    rewrite (bind_Normal _ _ _ _ _ Hout).
    pose proof (finish_spec E file_path p audio_format output_path σ) as Hfin.
    rewrite Hbad in Hfin. rewrite Hfin. cbn [fs].
    split; [done|]. apply lookup_delete_eq.
  - intros r fs'. rewrite decrypt_ncm_unfold, decrypt_ncm_body_split. unfold bind.
    destruct (decrypted_output E file_path (mkState fs0 []))
      as [[[p [audio_format output_path]]|r'|e] σ] eqn:Hout.
    + pose proof (finish_spec E file_path p audio_format output_path σ) as Hfin.
      destruct (verify_output (fs σ) output_path audio_format) eqn:Hok.
      * destruct Hfin as (y & σ' & -> & Hfile & [[e ->]|(t & a & al & fm & c & ->)]).
        -- by intros [= <- _].
        -- intros [= <- <-] _. by eexists _, _, _, _.
      * rewrite Hfin. by intros [= <- _].
    + intros [= <- _]. by rewrite (decrypted_output_returns E file_path _ _ _ Hout).
    + by intros [= <- _].
Qed.

Lemma verification_failure_deletes_output_witness :
  let fs0 := sample_fs (sample_container false [] (b "garbage")) in
  let output_path := mkPath "music" "song.mp3" in
  let written :=
    <[output_path := keystream_xor (KeystreamSpec.table [1; 2; 3]) 0 (b "garbage")]> fs0 in
  decrypt_ncm (stub_libraries JNull) song fs0
  = (Returned (Failure "song.ncm" "Output verification failed"),
     delete output_path written)
  ∧ delete output_path written !! output_path = None.
Proof.
  intros fs0 output_path written.
  apply (proj1 (verification_failure_deletes_output (stub_libraries JNull) song fs0)
           (mkParsed (KeystreamSpec.table [1; 2; 3]) (default_meta_data song) None)
           (JStr "mp3") output_path (mkState written [])).
  - vm_compute. reflexivity.
  - vm_compute. reflexivity.
Defined.

(** ** Formats the validator does not know *)

Lemma eq_str_ne (s s' : string) : s ≠ s' → eq_str (JStr s) s' = false.
Proof. intros Hne. simpl. by apply bool_decide_eq_false. Qed.

(** How a call ends once the container is parsed and the format is a
    string the validator does not know: with the exception of
    [with_suffix], and nothing written, if the output path cannot be formed;
    with the exception of [open], and nothing written, if the open is
    refused; and otherwise with the verification failure and no file left
    at the output path. *)
Lemma unknown_format_outcome refusal E file_path fs0 p σ fmt :
  read_container E file_path (mkState fs0 []) = (Normal p, σ) →
  get (meta_data p) "format" (JStr "mp3") = inr (JStr fmt) →
  fmt ≠ "flac" → fmt ≠ "mp3" →
  match with_suffix file_path ("." +:+ fmt) with
  | inl e =>
      decrypt_ncm_in refusal E file_path fs0
      = (Returned (Failure (name file_path) (str_exn e)), fs0)
  | inr output_path =>
      match refusal output_path with
      | Some e =>
          decrypt_ncm_in refusal E file_path fs0
          = (Returned (Failure (name file_path) (str_exn e)), fs0)
      | None =>
          decrypt_ncm_in refusal E file_path fs0
          = (Returned (Failure (name file_path) "Output verification failed"),
             delete output_path fs0)
      end
  end.
Proof.
  intros Hparse Hget Hflac Hmp3.
  pose proof (read_container_keeps_fs E file_path _ _ _ Hparse) as Hfs.
  cbn [fs] in Hfs.
  rewrite decrypt_ncm_in_unfold. unfold decrypt_ncm_body_in.
  rewrite (bind_Normal _ _ _ _ _ Hparse).
  destruct (with_suffix file_path ("." +:+ fmt)) as [e|output_path] eqn:Hpath.
  - rewrite (bind_Raise _ _ _ _ _
               (write_output_bad_suffix refusal E file_path p σ _ e Hget Hpath)).
    by rewrite Hfs.
  - destruct (refusal output_path) as [e|] eqn:Hopen.
    + rewrite (bind_Raise _ _ _ _ _
                 (write_output_refused refusal E file_path p σ _ output_path e
                    Hget Hpath Hopen)).
      by rewrite Hfs.
    + rewrite (bind_Normal _ _ _ _ _
                 (write_output_opened refusal E file_path p σ _ output_path
                    (read_container_key_stream _ _ _ _ _ Hparse) Hget Hpath Hopen)).
      cbn [fst snd].
      erewrite bind_Return.
      2:{ rewrite check_output_eq.
          rewrite verify_output_other_format by (by apply eq_str_ne). done. }
      cbn [fs]. by rewrite Hfs, delete_insert_eq.
Qed.

(** C10 (as amended): for every recovered format string other than [flac]
    and [mp3] the validator answers false whatever the file, and the
    conversion never succeeds, whatever the libraries do and whatever opens
    the environment refuses.  When the output path cannot be formed from
    the format, the call fails with the exception of [with_suffix]; when the
    path is formed and the open of line 118 is refused (by Python for a NUL
    byte in the format, by the operating system for a name that is too
    long), it fails with the exception of [open]; in both cases no file is
    written.  When the output file is opened, the call ends in the
    verification failure, and no file is left at the output path. *)
Theorem unknown_format_never_succeeds refusal E file_path fs0 p σ fmt :
  read_container E file_path (mkState fs0 []) = (Normal p, σ) →
  get (meta_data p) "format" (JStr "mp3") = inr (JStr fmt) →
  fmt ≠ "flac" → fmt ≠ "mp3" →
  (∀ fs1 path, verify_output fs1 path (JStr fmt) = false)
  ∧ (∃ r fs', decrypt_ncm_in refusal E file_path fs0 = (Returned r, fs')
              ∧ success r = false)
  ∧ match with_suffix file_path ("." +:+ fmt) with
    | inl e =>
        decrypt_ncm_in refusal E file_path fs0
        = (Returned (Failure (name file_path) (str_exn e)), fs0)
    | inr output_path =>
        match refusal output_path with
        | Some e =>
            decrypt_ncm_in refusal E file_path fs0
            = (Returned (Failure (name file_path) (str_exn e)), fs0)
        | None =>
            decrypt_ncm_in refusal E file_path fs0
            = (Returned (Failure (name file_path) "Output verification failed"),
               delete output_path fs0)
            ∧ delete output_path fs0 !! output_path = None
        end
    end.
Proof.
  intros Hparse Hget Hflac Hmp3.
  pose proof (unknown_format_outcome refusal E file_path fs0 p σ fmt
                Hparse Hget Hflac Hmp3) as Hout.
  split; [|split].
  - intros fs1 path. by apply verify_output_other_format; apply eq_str_ne.
  - destruct (with_suffix file_path ("." +:+ fmt)) as [e|output_path];
      [|destruct (refusal output_path)]; rewrite Hout; by eexists _, _.
  - destruct (with_suffix file_path ("." +:+ fmt)) as [e|output_path]; [done|].
    destruct (refusal output_path); [done|].
    split; [done|]. apply lookup_delete_eq.
Qed.

Lemma unknown_format_never_succeeds_witness :
  let wav := stub_libraries (JDict [("format", JStr "wav")]) in
  let nul := stub_libraries (JDict [("format", JStr nul_format)]) in
  let fs0 := sample_fs (sample_container true [] (b "garbage")) in
  ((∀ fs1 path, verify_output fs1 path (JStr "wav") = false)
   ∧ (∃ r fs', decrypt_ncm_in no_refusal wav song fs0 = (Returned r, fs')
               ∧ success r = false)
   ∧ match with_suffix song ("." +:+ "wav") with
     | inl e =>
         decrypt_ncm_in no_refusal wav song fs0
         = (Returned (Failure (name song) (str_exn e)), fs0)
     | inr output_path =>
         match no_refusal output_path with
         | Some e =>
             decrypt_ncm_in no_refusal wav song fs0
             = (Returned (Failure (name song) (str_exn e)), fs0)
         | None =>
             decrypt_ncm_in no_refusal wav song fs0
             = (Returned (Failure (name song) "Output verification failed"),
                delete output_path fs0)
             ∧ delete output_path fs0 !! output_path = None
         end
     end)
  ∧ ((∀ fs1 path, verify_output fs1 path (JStr nul_format) = false)
     ∧ (∃ r fs', decrypt_ncm_in nul_refusal nul song fs0 = (Returned r, fs')
                 ∧ success r = false)
     ∧ match with_suffix song ("." +:+ nul_format) with
       | inl e =>
           decrypt_ncm_in nul_refusal nul song fs0
           = (Returned (Failure (name song) (str_exn e)), fs0)
       | inr output_path =>
           match nul_refusal output_path with
           | Some e =>
               decrypt_ncm_in nul_refusal nul song fs0
               = (Returned (Failure (name song) (str_exn e)), fs0)
           | None =>
               decrypt_ncm_in nul_refusal nul song fs0
               = (Returned (Failure (name song) "Output verification failed"),
                  delete output_path fs0)
               ∧ delete output_path fs0 !! output_path = None
           end
       end).
Proof.
  intros wav nul fs0. split.
  - apply (unknown_format_never_succeeds no_refusal wav song fs0
             (mkParsed (KeystreamSpec.table [1; 2; 3])
                (JDict [("format", JStr "wav")]) None)
             (mkState fs0 (b "garbage")) "wav").
    + vm_compute. reflexivity.
    + reflexivity.
    + discriminate.
    + discriminate.
  - apply (unknown_format_never_succeeds nul_refusal nul song fs0
             (mkParsed (KeystreamSpec.table [1; 2; 3])
                (JDict [("format", JStr nul_format)]) None)
             (mkState fs0 (b "garbage")) nul_format).
    + vm_compute. reflexivity.
    + reflexivity.
    + discriminate.
    + discriminate.
Defined.

(** The second case at work: [with_suffix] forms the path [song.a<NUL>b],
    Python refuses to open it, and the call fails with the message of that
    [ValueError]; the validator is never asked and nothing is written. *)
Lemma format_with_nul_fails_at_open :
  let fs0 := sample_fs (sample_container true [] (b "garbage")) in
  with_suffix song ("." +:+ nul_format)
  = inr (mkPath "music" ("song." +:+ nul_format))
  ∧ decrypt_ncm_in nul_refusal
      (stub_libraries (JDict [("format", JStr nul_format)])) song fs0
    = (Returned (Failure "song.ncm" "embedded null byte"), fs0).
Proof. split; vm_compute; reflexivity. Qed.

Lemma str_contains_app_r (c : ascii) (s1 s2 : string) :
  str_contains c s2 = true → str_contains c (s1 +:+ s2) = true.
Proof.
  intros Hc. induction s1 as [|a s1 IH]; [done|].
  simpl. rewrite IH. apply orb_true_r.
Qed.

(** No output path can be formed from a format that contains the path
    separator. *)
Lemma with_suffix_separator (file_path : Path) :
  ∃ e, with_suffix file_path ".a/b" = inl e
       ∧ str_exn e ≠ "Output verification failed".
Proof.
  unfold with_suffix. rewrite decide_False by done.
  destruct (decide (stem file_path = "")); [by eexists|].
  cbn [String.prefix String.length Nat.ltb Nat.leb andb].
  change (_ && _) with true. cbn match.
  unfold with_name.
  rewrite (str_contains_app_r "/" (stem file_path) ".a/b") by done.
  rewrite orb_true_r. cbn [orb]. by eexists.
Qed.

(** C10 (as stated) fails: the format ["a/b"] is neither [flac] nor [mp3],
    yet a conversion that recovers it does not end in the verification
    failure.  It ends in the exception of [with_suffix], and no output file
    was ever created: on the sample container (where the stand-in
    [json.loads] answers that format), and for every file and every
    behaviour of the libraries. *)
Lemma format_with_separator_fails_before_validation :
  "a/b" ≠ "flac" ∧ "a/b" ≠ "mp3"
  ∧ decrypt_ncm (stub_libraries (JDict [("format", JStr "a/b")])) song
      (sample_fs (sample_container true [] (b "garbage")))
    = (Returned (Failure "song.ncm" "Invalid name 'song.a/b'"),
       sample_fs (sample_container true [] (b "garbage")))
  ∧ (∀ E file_path fs0 p σ,
       read_container E file_path (mkState fs0 []) = (Normal p, σ) →
       get (meta_data p) "format" (JStr "mp3") = inr (JStr "a/b") →
       ∃ msg, decrypt_ncm E file_path fs0
              = (Returned (Failure (name file_path) msg), fs0)
              ∧ msg ≠ "Output verification failed").
Proof.
  split; [discriminate|]. split; [discriminate|]. split.
  - vm_compute. reflexivity.
  - intros E file_path fs0 p σ Hparse Hget.
    pose proof (unknown_format_outcome no_refusal E file_path fs0 p σ "a/b"
                  Hparse Hget) as Hout.
    destruct (with_suffix_separator file_path) as (e & Hpath & Hmsg).
    change ("." +:+ "a/b") with ".a/b" in Hout. rewrite Hpath in Hout.
    exists (str_exn e). split; [|done]. apply Hout; discriminate.
Qed.

(** ** A container without metadata *)

Lemma xor_inplace_prefix (c : Z) (buf : bytes) (k : nat) :
  (k ≤ length buf)%nat →
  for_in (range k)
    (λ i buf, (x <- getitem buf i ;; setitem buf i (Z.lxor x c))%res) buf
  = inr (((λ x, Z.lxor x c) <$> take k buf) ++ drop k buf).
Proof.
  induction k as [|k IH]; intros Hk.
  - cbn [range seq fmap list_fmap for_in]. by rewrite take_0, drop_0.
  - rewrite range_S, for_in_app, IH by lia. cbn [res_bind for_in].
    destruct (lookup_lt_is_Some_2 buf k) as [x Hx]; [lia|].
    assert (length ((λ x, Z.lxor x c) <$> take k buf) = k) as Hpre.
    { rewrite length_fmap, length_take. lia. }
    rewrite (getitem_inr _ _ x); [|lia|].
    2:{ rewrite Nat2Z.id, lookup_app_r by lia.
        rewrite Hpre, Nat.sub_diag, lookup_drop, Nat.add_0_r. done. }
    cbn [res_bind].
    rewrite setitem_inr
      by (unfold len; rewrite length_app, Hpre, length_drop; lia).
    cbn [res_bind]. f_equal.
    rewrite Nat2Z.id, insert_app_r_alt by lia.
    rewrite Hpre, Nat.sub_diag.
    rewrite (take_S_r _ _ x Hx), fmap_app, <- app_assoc. f_equal.
    by rewrite (drop_S _ x k Hx).
Qed.

(** The loops of lines 76-77 and 98-99 raise nothing and XOR every byte. *)
Lemma xor_inplace_spec (c : Z) (buf : bytes) :
  xor_inplace c buf = inr ((λ x, Z.lxor x c) <$> buf).
Proof.
  unfold xor_inplace. rewrite xor_inplace_prefix by lia.
  by rewrite firstn_all, drop_all, app_nil_r.
Qed.

Lemma unpack_I_length buf n : unpack_I buf = inr n → length buf = 4%nat.
Proof. by destruct buf as [|? [|? [|? [|? [|? ?]]]]]. Qed.

Lemma bind_read_app {B} (n : Z) (a rest : bytes) (fs0 : filesystem)
    (k : bytes → M B) :
  length a = Z.to_nat n →
  bind (read n) k (mkState fs0 (a ++ rest)) = k a (mkState fs0 rest).
Proof.
  intros Hn. unfold bind, read. cbn [fs f].
  by rewrite <- Hn, take_app_length, drop_app_length.
Qed.

Lemma bind_seek_app {B} (n : Z) (a rest : bytes) (fs0 : filesystem)
    (k : unit → M B) :
  length a = Z.to_nat n →
  bind (seek n) k (mkState fs0 (a ++ rest)) = k tt (mkState fs0 rest).
Proof.
  intros Hn. unfold bind, seek. cbn [fs f].
  by rewrite <- Hn, drop_app_length.
Qed.

Lemma bind_ret {A B} (a : A) (k : A → M B) σ : bind (ret a) k σ = k a σ.
Proof. reflexivity. Qed.

(** Lines 68-113 on a well-formed container without metadata: the default
    record is synthesized and the handle is left at the payload. *)
Lemma read_container_bare E file_path fs0 c plain unpadded :
  fs0 !! file_path = Some (container_bytes c) →
  well_formed c →
  AES_decrypt E core_key ((λ x, Z.lxor x 0x64) <$> key_block c) = inr plain →
  unpad plain = inr unpadded →
  drop 17 unpadded ≠ [] →
  read_container E file_path (mkState fs0 [])
  = (Normal (mkParsed (KeystreamSpec.table (drop 17 unpadded))
               (default_meta_data file_path)
               (if 0 <? len (embedded_image c) then Some (embedded_image c) else None)),
     mkState fs0 (payload c)).
Proof.
  intros Hfile (Hr2 & Hklen & Hmlen & Hr5 & Hilen & space & Hspace & Hpad)
    Haes Hunpad Hkey.
  unfold read_container.
  rewrite (bind_Normal _ _ _ _ _ (open_rb_eq file_path (mkState fs0 []) _ Hfile)).
  cbn [fs]. unfold container_bytes.
  rewrite bind_read_app by done.
  rewrite bool_decide_false by (intros Hne; by apply Hne).
  rewrite bind_ret.
  rewrite bind_seek_app by done.
  rewrite bind_read_app by (by rewrite (unpack_I_length _ _ Hklen)).
  rewrite Hklen, bind_lift_inr.
  rewrite bind_read_app by (unfold len; by rewrite Nat2Z.id).
  rewrite xor_inplace_spec, bind_lift_inr.
  rewrite Haes, bind_lift_inr, Hunpad, bind_lift_inr.
  rewrite slice_from by lia. change (Z.to_nat 17) with 17%nat.
  rewrite derive_key_stream_spec by done. rewrite bind_lift_inr.
  rewrite bind_read_app by (by rewrite (unpack_I_length _ _ Hmlen)).
  rewrite Hmlen, bind_lift_inr.
  change (0 <? 0) with false. cbv iota.
  rewrite (bind_ret (default_meta_data file_path)).
  rewrite bind_seek_app by done.
  rewrite bind_read_app by (by rewrite (unpack_I_length _ _ Hspace)).
  rewrite Hspace, bind_lift_inr.
  rewrite bind_read_app by (by rewrite (unpack_I_length _ _ Hilen)).
  rewrite Hilen, bind_lift_inr.
  assert (∀ B (k : option bytes → M B) rest,
    bind (if 0 <? len (embedded_image c)
          then bind (read (len (embedded_image c))) (λ d, ret (Some d)) else ret None) k
      (mkState fs0 (embedded_image c ++ rest))
    = k (if 0 <? len (embedded_image c) then Some (embedded_image c) else None) (mkState fs0 rest))
    as Himage.
  { intros B k rest. destruct (Z.ltb_spec 0 (len (embedded_image c))) as [Hpos|Hzero].
    - rewrite bind_assoc. rewrite bind_read_app by (unfold len; by rewrite Nat2Z.id).
      by rewrite bind_ret.
    - rewrite bind_ret. destruct (embedded_image c); [done|]. unfold len in Hzero.
      simpl in Hzero. lia. }
  rewrite Himage.
  destruct (Z.ltb_spec (len (embedded_image c)) space) as [Hlt|Hge].
  - by rewrite bind_seek_app by (unfold len in *; lia).
  - by destruct (image_padding c) as [|x pad]; [|unfold len in *; simpl in Hpad; lia].
Qed.

Lemma report_default file_path key_stream image_data output_path cover_info σ :
  report file_path (mkParsed key_stream (default_meta_data file_path) image_data)
    (JStr "mp3") output_path cover_info σ
  = (Return (Success (name file_path) (name output_path) (JStr (stem file_path))
               (JStr "Unknown") (JStr "Unknown") "MP3" cover_info), σ).
Proof. reflexivity. Qed.

(** C8: on a well-formed container whose metadata length is zero and whose
    key block unwraps to a non-empty key, the parser synthesizes exactly the
    default record, and the conversion goes on as for an MP3: it succeeds,
    with the file stem as title, whenever the decrypted payload carries an
    MP3 signature, and otherwise fails only at the validator. *)
Theorem empty_metadata_gets_default E file_path fs0 c plain unpadded output_path :
  fs0 !! file_path = Some (container_bytes c) →
  well_formed c →
  AES_decrypt E core_key ((λ x, Z.lxor x 0x64) <$> key_block c) = inr plain →
  unpad plain = inr unpadded →
  drop 17 unpadded ≠ [] →
  with_suffix file_path ".mp3" = inr output_path →
  output_path ≠ file_path →
  let table := KeystreamSpec.table (drop 17 unpadded) in
  let audio := keystream_xor table 0 (payload c) in
  (∃ image_data,
     read_container E file_path (mkState fs0 [])
     = (Normal (mkParsed table
                  (JDict [("format", JStr "mp3");
                          ("musicName", JStr (stem file_path));
                          ("artist", JList []); ("album", JStr "Unknown");
                          ("musicId", JInt 0)])
                  image_data),
        mkState fs0 (payload c)))
  ∧ (mp3_signature audio →
       ∃ cover_info fs',
         decrypt_ncm E file_path fs0
         = (Returned (Success (name file_path) (name output_path)
                        (JStr (stem file_path)) (JStr "Unknown")
                        (JStr "Unknown") "MP3" cover_info), fs')
         ∧ fs' !! file_path = Some (container_bytes c)
         ∧ is_Some (fs' !! output_path))
  ∧ (¬ mp3_signature audio →
       decrypt_ncm E file_path fs0
       = (Returned (Failure (name file_path) "Output verification failed"),
          delete output_path fs0)).
Proof.
  intros Hfile Hwf Haes Hunpad Hkey Hpath Hne table audio.
  pose proof (read_container_bare E file_path fs0 c plain unpadded
                Hfile Hwf Haes Hunpad Hkey) as Hparse.
  fold table in Hparse.
  set (p := mkParsed table (default_meta_data file_path) _) in Hparse.
  split; [by eexists|].
  assert (write_output no_refusal E file_path p (mkState fs0 (payload c))
          = (Normal (JStr "mp3", output_path),
             mkState (<[output_path := audio]> fs0) [])) as Hwrite.
  { apply write_output_eq; [|done|done].
    unfold p, table, KeystreamSpec.table. cbn [key_stream].
    by rewrite length_fmap, range_length. }
  assert (decrypt_ncm_body E file_path (mkState fs0 [])
          = finish E file_path (p, (JStr "mp3", output_path))
              (mkState (<[output_path := audio]> fs0) [])) as Hbody.
  { unfold decrypt_ncm_body, decrypt_ncm_body_in.
    rewrite (bind_Normal _ _ _ _ _ Hparse), (bind_Normal _ _ _ _ _ Hwrite). done. }
  pose proof (verify_output_mp3 (<[output_path := audio]> fs0) output_path audio
                (lookup_insert_eq _ _ _)) as Hsig.
  rewrite decrypt_ncm_unfold, Hbody. split.
  - intros Hok. apply Hsig in Hok.
    unfold finish. cbn [fst snd].
    erewrite bind_Normal by (by rewrite check_output_eq; cbn [fs]; rewrite Hok).
    destruct (embed_cover_spec E p (JStr "mp3") output_path
                (mkState (<[output_path := audio]> fs0) []))
      as (cover_info & σ' & Hcover & Hkeep & Hother).
    rewrite (bind_Normal _ _ _ _ _ Hcover). unfold p. rewrite report_default.
    exists cover_info, (fs σ'). split; [done|]. split.
    + rewrite Hother by done. cbn [fs]. by rewrite lookup_insert_ne.
    + apply Hkeep. cbn [fs]. rewrite lookup_insert_eq. eauto.
  - intros Hbad.
    pose proof (finish_spec E file_path p (JStr "mp3") output_path
                  (mkState (<[output_path := audio]> fs0) [])) as Hfin.
    cbn [fs] in Hfin.
    destruct (verify_output (<[output_path := audio]> fs0) output_path (JStr "mp3"));
      [by destruct Hbad; apply Hsig|].
    rewrite Hfin. cbn [fs]. by rewrite delete_insert_eq.
Qed.

Lemma empty_metadata_gets_default_witness :
  let E := stub_libraries JNull in
  let c := mkBare [0; 0] (pack_I 32) sample_key_block (pack_I 0) [0; 0; 0; 0; 0]
             (pack_I 0) (pack_I 0) [] []
             (keystream_xor (KeystreamSpec.table [1; 2; 3]) 0 (b "ID3 tagged audio")) in
  let output_path := mkPath "music" "song.mp3" in
  let table := KeystreamSpec.table (drop 17 (replicate 17 0 ++ [1; 2; 3])) in
  let audio := keystream_xor table 0 (payload c) in
  (∃ image_data,
     read_container E song (mkState (sample_fs (container_bytes c)) [])
     = (Normal (mkParsed table
                  (JDict [("format", JStr "mp3");
                          ("musicName", JStr (stem song));
                          ("artist", JList []); ("album", JStr "Unknown");
                          ("musicId", JInt 0)])
                  image_data),
        mkState (sample_fs (container_bytes c)) (payload c)))
  ∧ (mp3_signature audio →
       ∃ cover_info fs',
         decrypt_ncm E song (sample_fs (container_bytes c))
         = (Returned (Success (name song) (name output_path)
                        (JStr (stem song)) (JStr "Unknown")
                        (JStr "Unknown") "MP3" cover_info), fs')
         ∧ fs' !! song = Some (container_bytes c)
         ∧ is_Some (fs' !! output_path))
  ∧ (¬ mp3_signature audio →
       decrypt_ncm E song (sample_fs (container_bytes c))
       = (Returned (Failure (name song) "Output verification failed"),
          delete output_path (sample_fs (container_bytes c)))).
Proof.
  intros E c output_path.
  apply (empty_metadata_gets_default E song (sample_fs (container_bytes c)) c
           (replicate 17 0 ++ [1; 2; 3] ++ replicate 12 12)
           (replicate 17 0 ++ [1; 2; 3]) output_path).
  - apply lookup_singleton_eq.
  - repeat split; try reflexivity. exists 0. split; reflexivity.
  - vm_compute. reflexivity.
  - vm_compute. reflexivity.
  - discriminate.
  - vm_compute. reflexivity.
  - discriminate.
Defined.

(** ** Bytes stay bytes

    A [bytearray] store of a value outside [range(256)] would raise; the
    stores of line 125 never do, because the table entries are bytes and the
    XOR of two bytes is a byte. *)

Lemma xor_is_byte (x y : Z) : is_byte x → is_byte y → is_byte (Z.lxor x y).
Proof.
  unfold is_byte. intros [Hx0 Hx] [Hy0 Hy].
  assert (0 ≤ Z.lxor x y) as Hnonneg by (by apply Z.lxor_nonneg).
  split; [done|].
  destruct (Z.eq_dec (Z.lxor x y) 0) as [->|Hne]; [lia|].
  apply (Z.log2_lt_pow2 _ 8); [lia|].
  pose proof (Z.log2_lxor x y Hx0 Hy0) as Hlog.
  assert (∀ z, 0 ≤ z < 256 → Z.log2 z < 8) as Hsmall.
  { intros z [Hz0 Hz]. destruct (Z.eq_dec z 0) as [->|Hzne]; [done|].
    apply Z.log2_lt_pow2; lia. }
  pose proof (Hsmall x (conj Hx0 Hx)). pose proof (Hsmall y (conj Hy0 Hy)). lia.
Qed.

Section bytes.
Import KeystreamSpec.

Lemma at_is_byte (box : list Z) (i : Z) :
  is_bytes box → 0 ≤ i < len box → is_byte (at_ box i).
Proof.
  unfold is_bytes, at_, len. intros Hbox Hi.
  apply (Forall_lookup_1 _ _ (Z.to_nat i) _ Hbox).
  apply list_lookup_lookup_total_lt. lia.
Qed.

Lemma swap_is_bytes (box : list Z) (i j : Z) :
  is_bytes box → 0 ≤ i < len box → 0 ≤ j < len box → is_bytes (swap box i j).
Proof.
  intros Hbox Hi Hj. unfold is_bytes, swap. apply Forall_lookup_2.
  intros k x. rewrite list_lookup_imap.
  destruct (box !! k) as [y|] eqn:Hy; [|done]. simpl. intros [= <-].
  repeat case_decide; try by apply at_is_byte.
  by apply (Forall_lookup_1 _ _ _ _ Hbox Hy).
Qed.

Lemma forward_pass_is_bytes (key : bytes) (n : nat) :
  (n ≤ 256)%nat → is_bytes (forward_pass key n).1.
Proof.
  induction n as [|n IH]; intros Hn.
  - unfold is_bytes. cbn [forward_pass fst]. unfold identity_box.
    apply Forall_fmap, Forall_forall. intros i Hi%elem_of_seq.
    unfold compose, is_byte. lia.
  - pose proof (forward_pass_invariant key n) as [Hlen Hj].
    cbn [forward_pass]. destruct (forward_pass key n) as [box j].
    cbn [fst snd] in *.
    apply swap_is_bytes; [apply IH; lia|unfold len; lia|].
    unfold len. rewrite Hlen. apply (Z.mod_pos_bound _ 256). lia.
Qed.

(** Every entry of a derived table is a byte. *)
Lemma table_is_bytes (key : bytes) : is_bytes (table key).
Proof.
  unfold is_bytes, table. apply Forall_fmap, Forall_forall. intros i _.
  unfold compose, table_entry.
  pose proof (forward_pass_invariant key 256) as [Hlen _].
  apply at_is_byte; [by apply forward_pass_is_bytes|].
  unfold len. rewrite Hlen. apply (Z.mod_pos_bound _ 256). lia.
Qed.

(** The decrypted payload of a file is a sequence of bytes. *)
Lemma keystream_xor_is_bytes (table : list Z) (pos : nat) (data : bytes) :
  length table = 256%nat → is_bytes table → is_bytes data →
  is_bytes (keystream_xor table pos data).
Proof.
  intros Hlen Htable Hdata. unfold is_bytes, keystream_xor.
  apply Forall_lookup_2. intros p x. rewrite list_lookup_imap.
  destruct (data !! p) as [y|] eqn:Hy; [|done]. simpl. intros [= <-].
  apply xor_is_byte; [by apply (Forall_lookup_1 _ _ _ _ Hdata Hy)|].
  apply at_is_byte; [done|].
  unfold len. rewrite Hlen. apply (Z.mod_pos_bound _ 256). lia.
Qed.

End bytes.

(** * Further properties of the code *)

(** ** The worker count *)

(** X1: [get_worker_count] always asks for at least one worker, leaves at
    least one processor free whenever there are two or more, falls back to
    two workers when the processor count is unknown, and never asks for
    fewer workers on a machine with more processors. *)
Theorem get_worker_count_bounds (os_cpu_count : option Z) :
  1 ≤ get_worker_count os_cpu_count
  ∧ (∀ n, os_cpu_count = Some n → 2 ≤ n → get_worker_count os_cpu_count < n)
  ∧ (os_cpu_count = None → get_worker_count os_cpu_count = 2)
  ∧ (∀ n m, 1 ≤ n ≤ m →
       get_worker_count (Some n) ≤ get_worker_count (Some m)).
Proof.
  unfold get_worker_count. repeat split.
  - destruct os_cpu_count as [n|]; [|done].
    destruct (Z.eqb_spec n 0); [done|].
    destruct (Z.leb_spec 4 n); lia.
  - intros n -> Hn. destruct (Z.eqb_spec n 0); [lia|].
    destruct (Z.leb_spec 4 n); lia.
  - by intros ->.
  - intros n m Hnm.
    destruct (Z.eqb_spec n 0), (Z.eqb_spec m 0); try lia.
    destruct (Z.leb_spec 4 n), (Z.leb_spec 4 m); lia.
Qed.

(** ** The report of [main] *)

Lemma report_result_counts E st r :
  success_count (report_result E st r)
  = success_count st + (if success r then 1 else 0)
  ∧ fail_count (report_result E st r)
    = fail_count st + (if success r then 0 else 1).
Proof. destruct r; cbn; lia. Qed.

Lemma report_loop_counts E (completed : list result) st :
  success_count (foldl (report_result E) st completed)
  = success_count st + len (filter (λ r, success r = true) completed)
  ∧ fail_count (foldl (report_result E) st completed)
    = fail_count st + len (filter (λ r, success r = false) completed).
Proof.
  revert st. induction completed as [|r completed IH]; intros st.
  - cbn. unfold len. cbn. lia.
  - cbn [foldl]. destruct (IH (report_result E st r)) as [-> ->].
    destruct (report_result_counts E st r) as [-> ->].
    rewrite !filter_cons. unfold len.
    destruct (success r); repeat case_decide; try done; cbn [length]; lia.
Qed.

(** X2: the loop of [main] counts every completed result exactly once: the
    success counter is the number of successes, the failure counter the
    number of failures, and the two add up to the number of results. *)
Theorem report_counts_every_result E n_files (completed : list result) :
  success_count (report_all E n_files completed)
  = len (filter (λ r, success r = true) completed)
  ∧ fail_count (report_all E n_files completed)
    = len (filter (λ r, success r = false) completed)
  ∧ success_count (report_all E n_files completed)
    + fail_count (report_all E n_files completed) = len completed.
Proof.
  unfold report_all. cbn [success_count fail_count].
  destruct (report_loop_counts E completed (mkReport 0 0 [])) as [-> ->].
  cbn [success_count fail_count]. split; [lia|]. split; [lia|].
  unfold len. induction completed as [|r completed IH]; [done|].
  rewrite !filter_cons. destruct (success r); repeat case_decide; try done;
    cbn [length]; lia.
Qed.

(** ** The obfuscation layer *)

(** X3: the XOR loops of lines 76-77 and 98-99 never raise, keep the length
    of the buffer, and undo themselves: masking the masked buffer with the
    same constant gives the buffer back. *)
Theorem xor_inplace_round_trip (c : Z) (buf : bytes) :
  ∃ masked, xor_inplace c buf = inr masked
    ∧ length masked = length buf
    ∧ xor_inplace c masked = inr buf.
Proof.
  exists ((λ x, Z.lxor x c) <$> buf). split; [apply xor_inplace_spec|].
  split; [by rewrite length_fmap|].
  rewrite xor_inplace_spec. f_equal. rewrite <- list_fmap_compose.
  rewrite <- (list_fmap_id buf) at 2. apply list_fmap_ext. intros i x _.
  unfold compose. by rewrite Z.lxor_assoc, Z.lxor_nilpotent, Z.lxor_0_r.
Qed.

(** ** Padding removal, on every buffer *)

Lemma slice_strip (s : bytes) (n : Z) :
  0 < n → slice s (Some 0) (Some (- n)) = take (length s - Z.to_nat n) s.
Proof.
  intros Hn. unfold slice, clamp_index, len. simpl.
  destruct (Z.ltb_spec (- n) 0); [|lia].
  change (Z.to_nat (0 `min` _)) with (Z.to_nat (0 `min` Z.of_nat (length s))).
  replace (Z.to_nat (0 `min` Z.of_nat (length s))) with 0%nat by lia.
  rewrite drop_0. f_equal. lia.
Qed.

(** X4: on a buffer of bytes [unpad] raises exactly when the buffer is
    empty; otherwise it returns a proper prefix of the buffer, so at least
    one byte is always removed. *)
Theorem unpad_returns_proper_prefix (s : bytes) :
  is_bytes s →
  ((∃ e, unpad s = inl e) ↔ s = [])
  ∧ (∀ r, unpad s = inr r → r `prefix_of` s ∧ (length r < length s)%nat).
Proof.
  intros Hbytes. destruct (last s) as [n|] eqn:Hlast.
  - rewrite (unpad_last s n Hlast).
    assert (s ≠ []) as Hne by (by intros ->).
    assert (0 < length s)%nat by (destruct s; [done|cbn; lia]).
    assert (0 ≤ n) as Hn.
    { apply last_Some in Hlast as [s' ->].
      unfold is_bytes in Hbytes. rewrite Forall_app in Hbytes.
      destruct Hbytes as [_ Hn]. rewrite Forall_singleton in Hn.
      unfold is_byte in Hn. lia. }
    split; [split; [by intros [e [=]]|done]|].
    intros r [= <-].
    destruct (Z.eq_dec n 0) as [->|Hpos].
    + pose proof (unpad_zero s Hlast) as Hzero.
      rewrite (unpad_last s 0 Hlast) in Hzero. injection Hzero as ->.
      split; [apply prefix_nil|done].
    + rewrite slice_strip by lia. split; [apply prefix_take|].
      rewrite length_take. lia.
  - apply last_None in Hlast as ->. split; [|by intros r [=]].
    split; [done|]. intros _. by eexists.
Qed.

Lemma unpad_returns_proper_prefix_witness :
  ((∃ e, unpad [1; 2; 3; 4; 2] = inl e) ↔ [1; 2; 3; 4; 2] = [])
  ∧ (∀ r, unpad [1; 2; 3; 4; 2] = inr r →
       r `prefix_of` [1; 2; 3; 4; 2] ∧ (length r < length [1; 2; 3; 4; 2])%nat).
Proof.
  apply (unpad_returns_proper_prefix [1; 2; 3; 4; 2]).
  repeat constructor; unfold is_byte; lia.
Defined.

(** ** The artist shown in the result *)

(** X5: the artist extraction of lines 181-187.  On a list it never raises:
    it gives the first name of a nested first entry, a first entry that is a
    string as it is, and ['Unknown'] otherwise.  On a non-empty string it
    gives the first character, that is the first code point, whatever the
    number of bytes that encode it.  It raises exactly on a value that is
    true in an [if] and is neither a list nor a string (a non-empty object,
    a non-zero number, [true]); every false value gives ['Unknown']. *)
Theorem artist_of_cases (artist_data : json) :
  (∀ l, artist_data = JList l →
     artist_of artist_data
     = inr (match l with
            | JList (a :: _) :: _ => a
            | JStr s :: _ => JStr s
            | _ => JStr "Unknown"
            end))
  ∧ (∀ c s, artist_data = JStr (String c s) →
       artist_of artist_data = inr (JStr (first_char c s)))
  ∧ (∀ cp cps, code_point cp → Forall code_point cps →
       artist_data = JStr (utf8 (cp :: cps)) →
       artist_of artist_data = inr (JStr (utf8 [cp])))
  ∧ ((∃ e, artist_of artist_data = inl e)
     ↔ truthy artist_data = true
       ∧ is_list artist_data = false ∧ is_str artist_data = false)
  ∧ (truthy artist_data = false → artist_of artist_data = inr (JStr "Unknown")).
Proof.
  split; [|split; [|split; [|split]]].
  - intros l ->. destruct l as [|[| | | | |[|a l']|] l]; reflexivity.
  - by intros c s ->.
  - intros cp cps Hcp Hcps ->.
    destruct (first_char_utf8 cp cps Hcp Hcps) as (c & s & -> & <-). done.
  - destruct artist_data as [|[]|n|x|[|c s]|[|[| | | | |[|a l']|] l]|[|item items]];
      cbn; try (split; [by intros [e [=]]|by intros (? & ? & ?)]);
      try (split; [done|by eexists]).
    + unfold artist_of. cbn [truthy]. destruct (n =? 0); cbn;
        (split; [try by intros [e [=]]|try by intros (? & ? & ?)]);
        try done; by eexists.
    + unfold artist_of. cbn [truthy]. destruct (PrimFloat.eqb x 0); cbn;
        (split; [try by intros [e [=]]|try by intros (? & ? & ?)]);
        try done; by eexists.
  - destruct artist_data as [|[]|n|x|[|c s]|[|a l]|[|item items]]; try done.
    + unfold artist_of. cbn [truthy]. by intros ->.
    + unfold artist_of. cbn [truthy]. by intros ->.
Qed.

(** ** What the validator needs to accept *)

(** X6: [verify_output] answers true only for a file that exists and holds
    at least two bytes, and only when the format is the string ['flac'] or
    the string ['mp3']; for a missing file, a shorter file or any other
    format value it answers false. *)
Theorem verify_output_accepts_only (fs0 : filesystem) (file_path : Path)
    (audio_format : json) :
  verify_output fs0 file_path audio_format = true →
  (audio_format = JStr "flac" ∨ audio_format = JStr "mp3")
  ∧ ∃ content, fs0 !! file_path = Some content ∧ (2 ≤ length content)%nat.
Proof.
  intros Hok. split; [by apply (verify_output_is_str fs0 file_path)|].
  destruct (fs0 !! file_path) as [content|] eqn:Hfile;
    [|by rewrite verify_output_missing in Hok].
  exists content. split; [done|].
  destruct (verify_output_is_str _ _ _ Hok) as [->| ->].
  - apply (verify_output_flac _ _ _ Hfile) in Hok.
    apply prefix_length in Hok. cbn in Hok. lia.
  - apply (verify_output_mp3 _ _ _ Hfile) in Hok.
    destruct Hok as [Hok|[Hok|Hok]]; apply prefix_length in Hok; cbn in Hok; lia.
Qed.

Lemma verify_output_accepts_only_witness :
  (JStr "mp3" = JStr "flac" ∨ JStr "mp3" = JStr "mp3")
  ∧ ∃ content,
      ({[ song := [0xff; 0xfb; 0x90] ]} : filesystem) !! song = Some content
      ∧ (2 ≤ length content)%nat.
Proof.
  apply (verify_output_accepts_only {[ song := [0xff; 0xfb; 0x90] ]} song (JStr "mp3")).
  reflexivity.
Defined.

(** ** The derived table and the permutation behind it *)

(** X7: the derivation of lines 82-93 fails exactly on an empty key, with
    the [ZeroDivisionError] of [i % len(key_data)]; on every other key it
    gives 256 entries, each of them a byte. *)
Theorem derive_key_stream_outcomes (key_data : bytes) :
  ((∃ msg, derive_key_stream key_data = inl (Exn ZeroDivisionError msg))
   ↔ key_data = [])
  ∧ (∀ e, derive_key_stream key_data = inl e → key_data = [])
  ∧ (∀ key_stream, derive_key_stream key_data = inr key_stream →
       length key_stream = 256%nat ∧ is_bytes key_stream).
Proof.
  destruct key_data as [|x key_data].
  - split; [split; [done|intros _; by eexists]|]. split; [done|].
    by intros key_stream [=].
  - rewrite derive_key_stream_spec by done.
    split; [split; [by intros [msg [=]]|done]|]. split; [by intros e [=]|].
    intros key_stream [= <-]. split; [|apply table_is_bytes].
    unfold KeystreamSpec.table. by rewrite length_fmap, range_length.
Qed.

Lemma forward_pass_permutation (key : bytes) (n : nat) :
  (n ≤ 256)%nat → (KeystreamSpec.forward_pass key n).1 ≡ₚ range 256.
Proof.
  induction n as [|n IH]; intros Hn; [done|].
  pose proof (forward_pass_invariant key n) as [Hlen Hj].
  cbn [KeystreamSpec.forward_pass].
  destruct (KeystreamSpec.forward_pass key n) as [box j].
  cbn [fst snd] in *. rewrite <- IH by lia.
  set (j' := (_ + _ + _) `mod` 256).
  assert (0 ≤ j' < 256) as Hj' by (apply Z.mod_pos_bound; lia).
  rewrite <- (swap_stores box (Z.of_nat n) j') by (unfold len; lia).
  apply Permutation_insert_swap; apply list_lookup_lookup_total_lt; lia.
Qed.

(** X8: after the loop of lines 84-86 the box is a permutation of
    [0 .. 255]: the loop only ever swaps entries, and [j] ends as a byte. *)
Theorem ksa_box_is_permutation (key_data : bytes) :
  key_data ≠ [] →
  ∃ box j, ksa key_data = inr (box, j) ∧ box ≡ₚ range 256 ∧ 0 ≤ j < 256.
Proof.
  intros Hkey. unfold ksa. rewrite ksa_prefix by (done || lia).
  pose proof (forward_pass_invariant key_data 256) as [_ Hj].
  pose proof (forward_pass_permutation key_data 256 (le_n _)) as Hperm.
  destruct (KeystreamSpec.forward_pass key_data 256) as [box j].
  by exists box, j.
Qed.

Lemma ksa_box_is_permutation_witness :
  ∃ box j, ksa [1; 2; 3] = inr (box, j) ∧ box ≡ₚ range 256 ∧ 0 ≤ j < 256.
Proof. apply (ksa_box_is_permutation [1; 2; 3]). discriminate. Defined.

(** ** What a call does to the file system *)

Lemma read_container_returns E file_path :
  returns_sat (λ r, r = Failure (name file_path) "Invalid NCM header")
    (read_container E file_path).
Proof. unfold read_container. auto 80 with returns. Qed.

(** When lines 68-113 do not complete, the call fails and writes nothing. *)
Lemma parse_failure_outcome E file_path fs0 x σ :
  read_container E file_path (mkState fs0 []) = (x, σ) →
  (∀ p, x ≠ Normal p) →
  ∃ error, decrypt_ncm E file_path fs0
           = (Returned (Failure (name file_path) error), fs0).
Proof.
  intros Hparse Hx.
  pose proof (read_container_keeps_fs E file_path _ _ _ Hparse) as Hfs.
  cbn [fs] in Hfs.
  rewrite decrypt_ncm_unfold. unfold decrypt_ncm_body, decrypt_ncm_body_in.
  destruct x as [p|r|e]; [by destruct (Hx p)| |].
  - rewrite (bind_Return _ _ _ _ _ Hparse), Hfs.
    rewrite (read_container_returns E file_path _ _ _ Hparse). by eexists.
  - rewrite (bind_Raise _ _ _ _ _ Hparse), Hfs. by eexists.
Qed.

Lemma parsed_get_fails E file_path fs0 p σ e :
  read_container E file_path (mkState fs0 []) = (Normal p, σ) →
  get (meta_data p) "format" (JStr "mp3") = inl e →
  decrypt_ncm E file_path fs0
  = (Returned (Failure (name file_path) (str_exn e)), fs0).
Proof.
  intros Hparse Hget.
  pose proof (read_container_keeps_fs E file_path _ _ _ Hparse) as Hfs.
  cbn [fs] in Hfs.
  rewrite decrypt_ncm_unfold. unfold decrypt_ncm_body, decrypt_ncm_body_in.
  rewrite (bind_Normal _ _ _ _ _ Hparse). unfold write_output.
  rewrite Hget. rewrite bind_assoc, bind_lift_inl. by rewrite Hfs.
Qed.

Lemma parsed_suffix_fails E file_path fs0 p σ audio_format e :
  read_container E file_path (mkState fs0 []) = (Normal p, σ) →
  get (meta_data p) "format" (JStr "mp3") = inr audio_format →
  with_suffix file_path ("." +:+ fstr E audio_format) = inl e →
  decrypt_ncm E file_path fs0
  = (Returned (Failure (name file_path) (str_exn e)), fs0).
Proof.
  intros Hparse Hget Hpath.
  pose proof (read_container_keeps_fs E file_path _ _ _ Hparse) as Hfs.
  cbn [fs] in Hfs.
  rewrite decrypt_ncm_unfold. unfold decrypt_ncm_body, decrypt_ncm_body_in.
  rewrite (bind_Normal _ _ _ _ _ Hparse).
  rewrite (bind_Raise _ _ _ _ _
             (write_output_bad_suffix no_refusal E file_path p σ _ e Hget Hpath)).
  by rewrite Hfs.
Qed.

(** When the output path can be formed, the validator is called on the
    file system with the decrypted payload at that path. *)
Lemma parsed_written E file_path fs0 p σ audio_format output_path :
  read_container E file_path (mkState fs0 []) = (Normal p, σ) →
  get (meta_data p) "format" (JStr "mp3") = inr audio_format →
  with_suffix file_path ("." +:+ fstr E audio_format) = inr output_path →
  decrypted_output E file_path (mkState fs0 [])
  = (Normal (p, (audio_format, output_path)),
     mkState (<[output_path := keystream_xor (key_stream p) 0 (f σ)]> fs0) []).
Proof.
  intros Hparse Hget Hpath.
  pose proof (read_container_keeps_fs E file_path _ _ _ Hparse) as Hfs.
  cbn [fs] in Hfs.
  unfold decrypted_output, decrypted_output_in.
  rewrite (bind_Normal _ _ _ _ _ Hparse).
  rewrite (bind_Normal _ _ _ _ _
             (write_output_eq E file_path p σ _ output_path
                (read_container_key_stream _ _ _ _ _ Hparse) Hget Hpath)).
  by rewrite Hfs.
Qed.

Lemma with_name_inr p nm out :
  with_name p nm = inr out → out = mkPath (parent p) nm.
Proof.
  unfold with_name. destruct (_ || _ || _); [done|].
  destruct (decide (name p = "")); [done|]. by intros [= <-].
Qed.

(** The output path lies beside the input and is named stem plus suffix. *)
Lemma with_suffix_inr p suffix out :
  with_suffix p suffix = inr out →
  out = mkPath (parent p) (stem p +:+ suffix).
Proof.
  unfold with_suffix. destruct (decide (suffix = "")) as [->|].
  - intros ->%with_name_inr. f_equal. generalize (stem p). intros s.
    induction s as [|c s IH]; [done|].
    change (String c s = String c (s +:+ "")). by f_equal.
  - destruct (decide (stem p = "")); [done|].
    destruct (_ && _); [|done]. apply with_name_inr.
Qed.

(** From the validator on, only the output path can change. *)
Lemma finish_frame E file_path p audio_format output_path σ x σ' :
  finish E file_path (p, (audio_format, output_path)) σ = (x, σ') →
  ∀ q, q ≠ output_path → fs σ' !! q = fs σ !! q.
Proof.
  unfold finish. cbn [fst snd]. intros Hrun q Hq.
  pose proof (check_output_eq file_path audio_format output_path σ) as Hcheck.
  destruct (verify_output (fs σ) output_path audio_format).
  - rewrite (bind_Normal _ _ _ _ _ Hcheck) in Hrun.
    destruct (embed_cover_spec E p audio_format output_path σ)
      as (cover_info & σ1 & Hcover & _ & Hother).
    rewrite (bind_Normal _ _ _ _ _ Hcover) in Hrun.
    destruct (report_spec file_path p audio_format output_path cover_info σ1)
      as [[e He]|(t & a & al & fm & He)];
      rewrite He in Hrun; injection Hrun as _ <-; by apply Hother.
  - rewrite (bind_Return _ _ _ _ _ Hcheck) in Hrun. injection Hrun as _ <-.
    cbn [fs]. by rewrite lookup_delete_ne.
Qed.

(** X9: a file that does not get through container parsing (a missing
    file, a wrong header, a truncated field, a key or metadata block that
    does not unwrap) makes the call return a failure naming the file, and no
    file is created, changed or deleted. *)
Theorem unparsed_container_writes_nothing E file_path fs0 x σ :
  read_container E file_path (mkState fs0 []) = (x, σ) →
  (∀ p, x ≠ Normal p) →
  ∃ error, decrypt_ncm E file_path fs0
           = (Returned (Failure (name file_path) error), fs0)
    ∧ ((x = Return (Failure (name file_path) "Invalid NCM header")
        ∧ error = "Invalid NCM header")
       ∨ (∃ e, x = Raise e ∧ error = str_exn e)).
Proof.
  intros Hparse Hx.
  pose proof (read_container_keeps_fs E file_path _ _ _ Hparse) as Hfs.
  cbn [fs] in Hfs.
  rewrite decrypt_ncm_unfold. unfold decrypt_ncm_body, decrypt_ncm_body_in.
  destruct x as [p|r|e]; [by destruct (Hx p)| |].
  - rewrite (bind_Return _ _ _ _ _ Hparse), Hfs.
    rewrite (read_container_returns E file_path _ _ _ Hparse).
    eexists. split; [done|]. by left.
  - rewrite (bind_Raise _ _ _ _ _ Hparse), Hfs.
    eexists. split; [done|]. right. by eexists.
Qed.

Lemma unparsed_container_writes_nothing_witness :
  let missing := Exn FileNotFoundError
                   "[Errno 2] No such file or directory: 'music/song.ncm'" in
  let short := Exn StructError "unpack requires a buffer of 4 bytes" in
  (∃ error, decrypt_ncm (stub_libraries JNull) song ∅
            = (Returned (Failure (name song) error), ∅)
     ∧ ((@Raise parsed missing = Return (Failure (name song) "Invalid NCM header")
         ∧ error = "Invalid NCM header")
        ∨ (∃ e, @Raise parsed missing = Raise e ∧ error = str_exn e)))
  ∧ (∃ error, decrypt_ncm (stub_libraries JNull) song
                (sample_fs (magic_signature ++ [0; 0; 1]))
              = (Returned (Failure (name song) error),
                 sample_fs (magic_signature ++ [0; 0; 1]))
       ∧ ((@Raise parsed short = Return (Failure (name song) "Invalid NCM header")
           ∧ error = "Invalid NCM header")
          ∨ (∃ e, @Raise parsed short = Raise e ∧ error = str_exn e))).
Proof.
  intros missing short. split.
  - apply (unparsed_container_writes_nothing (stub_libraries JNull) song ∅
             (Raise (Exn FileNotFoundError
                       "[Errno 2] No such file or directory: 'music/song.ncm'"))
             (mkState ∅ [])); [reflexivity|discriminate].
  - apply (unparsed_container_writes_nothing (stub_libraries JNull) song
             (sample_fs (magic_signature ++ [0; 0; 1]))
             (Raise (Exn StructError "unpack requires a buffer of 4 bytes"))
             (mkState (sample_fs (magic_signature ++ [0; 0; 1])) []));
      [vm_compute; reflexivity|discriminate].
Defined.

(** X10: a call touches at most one path, which lies in the directory of
    the input: every other file is after the call exactly what it was
    before, whatever the libraries do. *)
Theorem only_output_path_is_touched E file_path fs0 :
  ∃ r fs' output_path,
    decrypt_ncm E file_path fs0 = (Returned r, fs')
    ∧ parent output_path = parent file_path
    ∧ ∀ q, q ≠ output_path → fs' !! q = fs0 !! q.
Proof.
  destruct (read_container E file_path (mkState fs0 [])) as [[p|r|e] σ] eqn:Hparse.
  2,3: destruct (parse_failure_outcome E file_path fs0 _ σ Hparse) as [error ->];
    [done|by eexists _, fs0, file_path].
  destruct (get (meta_data p) "format" (JStr "mp3")) as [e|audio_format] eqn:Hget.
  { rewrite (parsed_get_fails E file_path fs0 p σ e Hparse Hget).
    by eexists _, fs0, file_path. }
  destruct (with_suffix file_path ("." +:+ fstr E audio_format))
    as [e|output_path] eqn:Hpath.
  { rewrite (parsed_suffix_fails E file_path fs0 p σ _ e Hparse Hget Hpath).
    by eexists _, fs0, file_path. }
  pose proof (parsed_written E file_path fs0 p σ _ _ Hparse Hget Hpath) as Hout.
  rewrite decrypt_ncm_unfold, decrypt_ncm_body_split.
  rewrite (bind_Normal _ _ _ _ _ Hout).
  set (σ1 := mkState _ []).
  destruct (finish_ends E file_path (p, (audio_format, output_path)) σ1)
    as (y & σ' & Hfin & Hy).
  pose proof (finish_frame E file_path p audio_format output_path σ1 y σ' Hfin)
    as Hframe.
  rewrite Hfin.
  assert (parent output_path = parent file_path) as Hparent
    by (by rewrite (with_suffix_inr _ _ _ Hpath)).
  assert (∀ q, q ≠ output_path → fs σ' !! q = fs0 !! q) as Hrest.
  { intros q Hq. rewrite (Hframe q Hq). unfold σ1. cbn [fs].
    by rewrite lookup_insert_ne. }
  destruct Hy as [[e ->]|(r & -> & _)]; by eexists _, (fs σ'), output_path.
Qed.

(** X11: once the validator has accepted the output, the call never deletes
    it: the output file is in place when the call returns, whether it
    returns a success or fails on an exception raised afterwards.  The
    output is taken to be another file than the input: opening the input for
    writing would truncate it under the open handle, which the handle of the
    model does not follow. *)
Theorem accepted_output_is_kept E file_path fs0 p audio_format output_path σ :
  decrypted_output E file_path (mkState fs0 [])
  = (Normal (p, (audio_format, output_path)), σ) →
  output_path ≠ file_path →
  verify_output (fs σ) output_path audio_format = true →
  ∃ r fs',
    decrypt_ncm E file_path fs0 = (Returned r, fs')
    ∧ is_Some (fs' !! output_path)
    ∧ ((∃ e, r = Failure (name file_path) (str_exn e))
       ∨ (∃ title artist album format cover_info,
            r = Success (name file_path) (name output_path) title artist
                  album format cover_info)).
Proof.
  intros Hout _ Hok.
  rewrite decrypt_ncm_unfold, decrypt_ncm_body_split.
  rewrite (bind_Normal _ _ _ _ _ Hout).
  pose proof (finish_spec E file_path p audio_format output_path σ) as Hfin.
  rewrite Hok in Hfin.
  destruct Hfin as (y & σ' & -> & Hfile & [[e ->]|(t & a & al & fm & c & ->)]).
  - eexists _, _. split; [done|]. split; [done|]. left. by eexists.
  - eexists _, _. split; [done|]. split; [done|]. right. by eexists _, _, _, _, _.
Qed.

Lemma accepted_output_is_kept_witness :
  let E := stub_libraries (JDict [("format", JStr "mp3"); ("artist", JInt 7)]) in
  let payload := keystream_xor (KeystreamSpec.table [1; 2; 3]) 0 (b "ID3 audio") in
  let fs0 := sample_fs (sample_container true [] payload) in
  ∃ r fs',
    decrypt_ncm E song fs0 = (Returned r, fs')
    ∧ is_Some (fs' !! mkPath "music" "song.mp3")
    ∧ ((∃ e, r = Failure (name song) (str_exn e))
       ∨ (∃ title artist album format cover_info,
            r = Success (name song) (name (mkPath "music" "song.mp3")) title
                  artist album format cover_info)).
Proof.
  intros E payload fs0.
  apply (accepted_output_is_kept E song fs0
           (mkParsed (KeystreamSpec.table [1; 2; 3])
              (JDict [("format", JStr "mp3"); ("artist", JInt 7)]) None)
           (JStr "mp3") (mkPath "music" "song.mp3")
           (mkState (<[mkPath "music" "song.mp3" := b "ID3 audio"]> fs0) [])).
  - vm_compute. reflexivity.
  - discriminate.
  - vm_compute. reflexivity.
Defined.

(** ** The shape of a success *)

(** What the last step returns, read back from the result. *)
Lemma report_Return_inv file_path p audio_format output_path cover_info σ r σ' :
  report file_path p audio_format output_path cover_info σ = (Return r, σ') →
  σ' = σ
  ∧ ∃ title artist album format artist_data,
      r = Success (name file_path) (name output_path) title artist album
            format cover_info
      ∧ get (meta_data p) "artist" (JList []) = inr artist_data
      ∧ artist_of artist_data = inr artist
      ∧ get (meta_data p) "musicName" (JStr "Unknown") = inr title
      ∧ get (meta_data p) "album" (JStr "Unknown") = inr album
      ∧ upper_of audio_format = inr format.
Proof.
  unfold report.
  destruct (get (meta_data p) "artist" (JList [])) as [e|artist_data];
    [by rewrite bind_lift_inl|].
  rewrite bind_lift_inr.
  destruct (artist_of artist_data) as [e|artist] eqn:Hartist;
    [by rewrite bind_lift_inl|].
  rewrite bind_lift_inr.
  destruct (get (meta_data p) "musicName" (JStr "Unknown")) as [e|title];
    [by rewrite bind_lift_inl|].
  rewrite bind_lift_inr.
  destruct (get (meta_data p) "album" (JStr "Unknown")) as [e|album];
    [by rewrite bind_lift_inl|].
  rewrite bind_lift_inr.
  destruct (upper_of audio_format) as [e|format]; [by rewrite bind_lift_inl|].
  rewrite bind_lift_inr. intros [= <- <-]. split; [done|].
  by eexists _, _, _, _, _.
Qed.

(** What lines 115-116 computed when the payload was written. *)
Lemma decrypted_output_inv E file_path σ p audio_format output_path σ' :
  decrypted_output E file_path σ = (Normal (p, (audio_format, output_path)), σ') →
  (∃ σ1, read_container E file_path σ = (Normal p, σ1))
  ∧ get (meta_data p) "format" (JStr "mp3") = inr audio_format
  ∧ with_suffix file_path ("." +:+ fstr E audio_format) = inr output_path.
Proof.
  unfold decrypted_output, decrypted_output_in. intros Hrun.
  apply bind_Normal_inv in Hrun as (p' & σ1 & Hparse & Hrun).
  apply bind_Normal_inv in Hrun as ([fmt out] & σ2 & Hwrite & Hrun).
  injection Hrun as -> -> -> _.
  unfold write_output in Hwrite.
  apply bind_Normal_inv in Hwrite as (fmt' & σ3 & [Hget _]%lift_Normal_inv & Hwrite).
  apply bind_Normal_inv in Hwrite as (out' & σ4 & [Hpath _]%lift_Normal_inv & Hwrite).
  apply bind_Normal_inv in Hwrite as (? & σ5 & _ & Hwrite).
  injection Hwrite as -> -> _. eauto.
Qed.

(** X12: whenever a call reports a success, the record names the input file,
    the format is ['FLAC'] or ['MP3'], the output is named by the stem of the
    input and the matching extension, and a file of that name exists beside
    the input when the call returns. *)
Theorem success_result_shape E file_path fs0 file output title artist album
    format cover_info fs' :
  decrypt_ncm E file_path fs0
  = (Returned (Success file output title artist album format cover_info), fs') →
  file = name file_path
  ∧ ((format = "FLAC" ∧ output = stem file_path +:+ ".flac")
     ∨ (format = "MP3" ∧ output = stem file_path +:+ ".mp3"))
  ∧ is_Some (fs' !! mkPath (parent file_path) output).
Proof.
  intros Hrun. rewrite decrypt_ncm_unfold, decrypt_ncm_body_split in Hrun.
  destruct (decrypted_output E file_path (mkState fs0 []))
    as [[[p [fmt out]]|r|e] σ] eqn:Hout.
  2:{ rewrite (bind_Return _ _ _ _ _ Hout) in Hrun. injection Hrun as -> _.
      by pose proof (decrypted_output_returns E file_path _ _ _ Hout). }
  2:{ by rewrite (bind_Raise _ _ _ _ _ Hout) in Hrun. }
  rewrite (bind_Normal _ _ _ _ _ Hout) in Hrun.
  destruct (decrypted_output_inv _ _ _ _ _ _ _ Hout) as (_ & Hget & Hpath).
  unfold finish in Hrun. cbn [fst snd] in Hrun.
  pose proof (check_output_eq file_path fmt out σ) as Hcheck.
  destruct (verify_output (fs σ) out fmt) eqn:Hok.
  2:{ by rewrite (bind_Return _ _ _ _ _ Hcheck) in Hrun. }
  rewrite (bind_Normal _ _ _ _ _ Hcheck) in Hrun.
  destruct (embed_cover_spec E p fmt out σ) as (c & σ1 & Hcover & Hkeep & _).
  rewrite (bind_Normal _ _ _ _ _ Hcover) in Hrun.
  destruct (report file_path p fmt out c σ1) as [[?|r|e] σ2] eqn:Hrep; [done| |done].
  injection Hrun as -> <-.
  destruct (report_Return_inv _ _ _ _ _ _ _ _ Hrep)
    as (-> & t & a & al & fm & ad & Hr & _ & _ & _ & _ & Hup).
  injection Hr as -> -> _ _ _ -> _.
  assert (is_Some (fs σ1 !! out)) as Hfile.
  { apply Hkeep. unfold verify_output in Hok.
    destruct (fs σ !! out); [eauto|done]. }
  apply with_suffix_inr in Hpath. split; [done|].
  destruct (verify_output_is_str _ _ _ Hok) as [->| ->];
    injection Hup as <-; cbn [fstr] in Hpath; subst out; cbn [name];
    (split; [|done]); [by left|by right].
Qed.

Lemma success_result_shape_witness :
  let payload := keystream_xor (KeystreamSpec.table [1; 2; 3]) 0 (b "ID3 audio") in
  let fs0 := sample_fs (sample_container false [] payload) in
  "song.ncm" = name song
  ∧ (("MP3" = "FLAC" ∧ "song.mp3" = stem song +:+ ".flac")
     ∨ ("MP3" = "MP3" ∧ "song.mp3" = stem song +:+ ".mp3"))
  ∧ is_Some (<[mkPath "music" "song.mp3" := b "ID3 audio"]> fs0
             !! mkPath (parent song) "song.mp3").
Proof.
  intros payload fs0.
  apply (success_result_shape (stub_libraries JNull) song fs0 "song.ncm"
           "song.mp3" (JStr "song") (JStr "Unknown") (JStr "Unknown") "MP3"
           "None" (<[mkPath "music" "song.mp3" := b "ID3 audio"]> fs0)).
  vm_compute. reflexivity.
Defined.

(** ** The output without a cover *)

Lemma embed_cover_none E p audio_format output_path σ music_id :
  get (meta_data p) "musicId" JNull = inr music_id →
  truthy music_id = false →
  truthy_bytes (image_data p) = false →
  embed_cover E p audio_format output_path σ = (Normal "None", σ).
Proof.
  intros Hid Hfalsy Himg. unfold embed_cover, try_except.
  rewrite Hid, bind_lift_inr, Hfalsy, bind_ret, Himg. reflexivity.
Qed.

(** X13: when the metadata carries no track identifier and the container no
    picture, no library touches the output: after the call the output file
    (another file than the input) is byte for byte the payload XORed with
    the table, every other file is as before, and a success reports the
    cover ["None"]. *)
Theorem untagged_output_is_decrypted_payload E file_path fs0 p σ audio_format
    output_path music_id :
  read_container E file_path (mkState fs0 []) = (Normal p, σ) →
  get (meta_data p) "format" (JStr "mp3") = inr audio_format →
  with_suffix file_path ("." +:+ fstr E audio_format) = inr output_path →
  output_path ≠ file_path →
  get (meta_data p) "musicId" JNull = inr music_id →
  truthy music_id = false →
  truthy_bytes (image_data p) = false →
  let audio := keystream_xor (key_stream p) 0 (f σ) in
  verify_output (<[output_path := audio]> fs0) output_path audio_format = true →
  ∃ r, decrypt_ncm E file_path fs0 = (Returned r, <[output_path := audio]> fs0)
    ∧ ((∃ e, r = Failure (name file_path) (str_exn e))
       ∨ (∃ title artist album format,
            r = Success (name file_path) (name output_path) title artist
                  album format "None")).
Proof.
  intros Hparse Hget Hpath _ Hid Hfalsy Himg audio Hok.
  pose proof (parsed_written E file_path fs0 p σ _ _ Hparse Hget Hpath) as Hout.
  fold audio in Hout.
  rewrite decrypt_ncm_unfold, decrypt_ncm_body_split.
  rewrite (bind_Normal _ _ _ _ _ Hout).
  unfold finish. cbn [fst snd].
  erewrite bind_Normal by (by rewrite check_output_eq; cbn [fs]; rewrite Hok).
  rewrite (bind_Normal _ _ _ _ _
             (embed_cover_none E p audio_format output_path _ music_id
                Hid Hfalsy Himg)).
  destruct (report_spec file_path p audio_format output_path "None"
              (mkState (<[output_path := audio]> fs0) []))
    as [[e ->]|(t & a & al & fm & ->)]; cbn [fs].
  - eexists. split; [done|]. left. by eexists.
  - eexists. split; [done|]. right. by eexists _, _, _, _.
Qed.

Lemma untagged_output_is_decrypted_payload_witness :
  let E := stub_libraries JNull in
  let payload := keystream_xor (KeystreamSpec.table [1; 2; 3]) 0 (b "ID3 audio") in
  let fs0 := sample_fs (sample_container false [] payload) in
  let audio := keystream_xor (KeystreamSpec.table [1; 2; 3]) 0 payload in
  ∃ r, decrypt_ncm E song fs0
       = (Returned r, <[mkPath "music" "song.mp3" := audio]> fs0)
    ∧ ((∃ e, r = Failure (name song) (str_exn e))
       ∨ (∃ title artist album format,
            r = Success (name song) (name (mkPath "music" "song.mp3")) title
                  artist album format "None")).
Proof.
  intros E payload fs0 audio.
  apply (untagged_output_is_decrypted_payload E song fs0
           (mkParsed (KeystreamSpec.table [1; 2; 3]) (default_meta_data song) None)
           (mkState fs0 payload) (JStr "mp3") (mkPath "music" "song.mp3")
           (JInt 0)).
  - vm_compute. reflexivity.
  - reflexivity.
  - vm_compute. reflexivity.
  - discriminate.
  - reflexivity.
  - reflexivity.
  - reflexivity.
  - vm_compute. reflexivity.
Defined.

(** ** Failures of the parser *)

(** X14: a key block that unwraps to at most 17 bytes leaves no key
    material: the table derivation divides by zero, and the call returns the
    failure with that error without writing anything. *)
Theorem empty_key_material_fails E file_path fs0 reserved key_len_field
    key_block rest plain unpadded :
  fs0 !! file_path
  = Some (magic_signature ++ reserved ++ key_len_field ++ key_block ++ rest) →
  length reserved = 2%nat →
  unpack_I key_len_field = inr (len key_block) →
  AES_decrypt E core_key ((λ x, Z.lxor x 0x64) <$> key_block) = inr plain →
  unpad plain = inr unpadded →
  (length unpadded ≤ 17)%nat →
  ∃ msg, derive_key_stream [] = inl (Exn ZeroDivisionError msg)
    ∧ decrypt_ncm E file_path fs0
      = (Returned (Failure (name file_path) msg), fs0).
Proof.
  intros Hfile Hres Hklen Haes Hunpad Hshort.
  assert (derive_key_stream []
          = inl (Exn ZeroDivisionError "integer modulo by zero")) as Hzero by done.
  eexists. split; [exact Hzero|].
  assert (read_container E file_path (mkState fs0 [])
          = (Raise (Exn ZeroDivisionError "integer modulo by zero"),
             mkState fs0 rest)) as Hparse.
  { unfold read_container.
    rewrite (bind_Normal _ _ _ _ _ (open_rb_eq file_path (mkState fs0 []) _ Hfile)).
    cbn [fs].
    rewrite bind_read_app by done.
    rewrite bool_decide_false by (intros Hne; by apply Hne).
    rewrite bind_ret.
    rewrite bind_seek_app by done.
    rewrite bind_read_app by (by rewrite (unpack_I_length _ _ Hklen)).
    rewrite Hklen, bind_lift_inr.
    rewrite bind_read_app by (unfold len; by rewrite Nat2Z.id).
    rewrite xor_inplace_spec, bind_lift_inr.
    rewrite Haes, bind_lift_inr, Hunpad, bind_lift_inr.
    rewrite slice_from by lia. change (Z.to_nat 17) with 17%nat.
    rewrite drop_ge by done. by rewrite Hzero, bind_lift_inl. }
  rewrite decrypt_ncm_unfold. unfold decrypt_ncm_body, decrypt_ncm_body_in.
  by rewrite (bind_Raise _ _ _ _ _ Hparse).
Qed.

Lemma empty_key_material_fails_witness :
  let key_block := (λ x, Z.lxor x 0x64) <$> (replicate 15 0 ++ [1]) in
  let content := magic_signature ++ [0; 0] ++ pack_I 16 ++ key_block ++ [] in
  ∃ msg, derive_key_stream [] = inl (Exn ZeroDivisionError msg)
    ∧ decrypt_ncm (stub_libraries JNull) song (sample_fs content)
      = (Returned (Failure (name song) msg), sample_fs content).
Proof.
  intros key_block content.
  apply (empty_key_material_fails (stub_libraries JNull) song (sample_fs content)
           [0; 0] (pack_I 16) key_block [] (replicate 15 0 ++ [1])
           (replicate 15 0)).
  - apply lookup_singleton_eq.
  - reflexivity.
  - reflexivity.
  - vm_compute. reflexivity.
  - vm_compute. reflexivity.
  - vm_compute. lia.
Defined.

(** X15: metadata that decodes to a JSON value other than an object (a
    list, a string, a number, [null]) is parsed without complaint, and the
    call then fails at line 115 on the missing [get] method, before any
    output is written. *)
Theorem non_object_metadata_fails E file_path fs0 p σ :
  read_container E file_path (mkState fs0 []) = (Normal p, σ) →
  (∀ items, meta_data p ≠ JDict items) →
  ∃ msg, get (meta_data p) "format" (JStr "mp3") = inl (Exn AttributeError msg)
    ∧ decrypt_ncm E file_path fs0
      = (Returned (Failure (name file_path) msg), fs0).
Proof.
  intros Hparse Hdict.
  assert (∃ msg, get (meta_data p) "format" (JStr "mp3")
                 = inl (Exn AttributeError msg)) as [msg Hget].
  { destruct (meta_data p) as [| | | | | |items]; try by eexists.
    by destruct (Hdict items). }
  exists msg. split; [done|].
  by rewrite (parsed_get_fails E file_path fs0 p σ _ Hparse Hget).
Qed.

Lemma non_object_metadata_fails_witness :
  let E := stub_libraries (JList [JStr "flac"]) in
  let fs0 := sample_fs (sample_container true [] (b "payload")) in
  ∃ msg, get (JList [JStr "flac"]) "format" (JStr "mp3")
         = inl (Exn AttributeError msg)
    ∧ decrypt_ncm E song fs0 = (Returned (Failure (name song) msg), fs0).
Proof.
  intros E fs0.
  apply (non_object_metadata_fails E song fs0
           (mkParsed (KeystreamSpec.table [1; 2; 3]) (JList [JStr "flac"]) None)
           (mkState fs0 (b "payload"))).
  - vm_compute. reflexivity.
  - discriminate.
Defined.

(** X16: the header check of lines 69-71 is exact.  On a file that exists,
    the parser returns the ['Invalid NCM header'] failure if and only if the
    first eight bytes are not the signature; a file that starts with the
    signature is never turned away by a [return]. *)
Theorem header_check_is_exact E file_path fs0 content :
  fs0 !! file_path = Some content →
  ((∃ r σ, read_container E file_path (mkState fs0 []) = (Return r, σ))
   ↔ take 8 content ≠ magic_signature)
  ∧ (∀ r σ, read_container E file_path (mkState fs0 []) = (Return r, σ) →
       r = Failure (name file_path) "Invalid NCM header"
       ∧ σ = mkState fs0 (drop 8 content)).
Proof.
  intros Hfile.
  assert (take 8 content = magic_signature →
          ∀ r σ, read_container E file_path (mkState fs0 []) ≠ (Return r, σ))
    as Hgood.
  { intros Hmagic r σ Hrun. unfold read_container in Hrun.
    rewrite (bind_Normal _ _ _ _ _
               (open_rb_eq file_path (mkState fs0 []) content Hfile)) in Hrun.
    erewrite bind_Normal in Hrun by reflexivity. cbn [fs f] in Hrun.
    change (Z.to_nat 8) with 8%nat in Hrun.
    rewrite bool_decide_false in Hrun
      by (intros Hne; apply Hne; by rewrite header_check).
    rewrite bind_ret in Hrun.
    revert Hrun. apply (returns_sat_bind (λ _, False)); [|intros ?];
      auto 80 with returns. }
  split.
  - split.
    + intros (r & σ & Hrun) Hmagic. by apply (Hgood Hmagic r σ).
    + intros Hbad. eexists _, _.
      apply (read_container_bad_header E file_path fs0 content Hfile Hbad).
  - intros r σ Hrun.
    destruct (decide (take 8 content = magic_signature)) as [Hmagic|Hbad];
      [by destruct (Hgood Hmagic r σ)|].
    rewrite (read_container_bad_header E file_path fs0 content Hfile Hbad) in Hrun.
    by injection Hrun as <- <-.
Qed.

Lemma header_check_is_exact_witness :
  let content := magic_signature ++ [0; 0; 1] in
  ((∃ r σ, read_container (stub_libraries JNull) song
             (mkState (sample_fs content) []) = (Return r, σ))
   ↔ take 8 content ≠ magic_signature)
  ∧ (∀ r σ, read_container (stub_libraries JNull) song
              (mkState (sample_fs content) []) = (Return r, σ) →
       r = Failure (name song) "Invalid NCM header"
       ∧ σ = mkState (sample_fs content) (drop 8 content)).
Proof.
  intros content.
  apply (header_check_is_exact (stub_libraries JNull) song (sample_fs content)
           content).
  apply lookup_singleton_eq.
Defined.

(** ** The parser on a container with metadata *)

(** X17: on a container laid out as lines 68-113 read it, whose key block
    unwraps to a non-empty key and whose metadata block passes every decoder,
    the parser fails nowhere: it keeps the table of the key, the document
    [json.loads] gave for the text behind its first six characters, and the
    embedded picture if there is one, and it leaves the handle exactly at
    the first byte of the audio payload.  The six characters are six code
    points, however many bytes encode them: of a text with the code points
    [cps], [json.loads] is given the text with the code points
    [drop 6 cps]. *)
Theorem metadata_block_is_unwrapped E file_path fs0 c meta_block plain unpadded
    decoded decrypted stripped text doc :
  fs0 !! file_path = Some (tagged_container_bytes c meta_block) →
  well_formed_tagged c meta_block →
  AES_decrypt E core_key ((λ x, Z.lxor x 0x64) <$> key_block c) = inr plain →
  unpad plain = inr unpadded →
  drop 17 unpadded ≠ [] →
  b64decode E (drop 22 ((λ x, Z.lxor x 0x63) <$> meta_block)) = inr decoded →
  AES_decrypt E meta_key decoded = inr decrypted →
  unpad decrypted = inr stripped →
  decode_utf8 E stripped = inr text →
  json_loads E (str_drop 6 text) = inr doc →
  read_container E file_path (mkState fs0 [])
  = (Normal (mkParsed (KeystreamSpec.table (drop 17 unpadded)) doc
               (if 0 <? len (embedded_image c) then Some (embedded_image c)
                else None)),
     mkState fs0 (payload c))
  ∧ (∀ cps, Forall code_point cps → text = utf8 cps →
       str_drop 6 text = utf8 (drop 6 cps)).
Proof.
  intros Hfile (Hr2 & Hklen & Hmeta & Hmlen & Hr5 & Hilen & space & Hspace & Hpad)
    Haes Hunpad Hkey Hb64 Haes' Hunpad' Hutf8 Hjson.
  split; [|by intros cps Hcps ->; apply str_drop_utf8].
  unfold read_container.
  rewrite (bind_Normal _ _ _ _ _ (open_rb_eq file_path (mkState fs0 []) _ Hfile)).
  cbn [fs]. unfold tagged_container_bytes.
  rewrite bind_read_app by done.
  rewrite bool_decide_false by (intros Hne; by apply Hne).
  rewrite bind_ret.
  rewrite bind_seek_app by done.
  rewrite bind_read_app by (by rewrite (unpack_I_length _ _ Hklen)).
  rewrite Hklen, bind_lift_inr.
  rewrite bind_read_app by (unfold len; by rewrite Nat2Z.id).
  rewrite xor_inplace_spec, bind_lift_inr.
  rewrite Haes, bind_lift_inr, Hunpad, bind_lift_inr.
  rewrite slice_from by lia. change (Z.to_nat 17) with 17%nat.
  rewrite derive_key_stream_spec by done. rewrite bind_lift_inr.
  rewrite bind_read_app by (by rewrite (unpack_I_length _ _ Hmlen)).
  rewrite Hmlen, bind_lift_inr.
  assert ((0 <? len meta_block) = true) as ->.
  { apply Z.ltb_lt. destruct meta_block; [done|]. unfold len. cbn [length]. lia. }
  rewrite bind_assoc.
  rewrite bind_read_app by (unfold len; by rewrite Nat2Z.id).
  rewrite bind_assoc, xor_inplace_spec, bind_lift_inr.
  rewrite slice_from by lia. change (Z.to_nat 22) with 22%nat.
  rewrite bind_assoc, Hb64, bind_lift_inr.
  rewrite bind_assoc, Haes', bind_lift_inr.
  rewrite bind_assoc, Hunpad', bind_lift_inr.
  rewrite bind_assoc, Hutf8, bind_lift_inr.
  rewrite Hjson, bind_lift_inr.
  rewrite bind_seek_app by done.
  rewrite bind_read_app by (by rewrite (unpack_I_length _ _ Hspace)).
  rewrite Hspace, bind_lift_inr.
  rewrite bind_read_app by (by rewrite (unpack_I_length _ _ Hilen)).
  rewrite Hilen, bind_lift_inr.
  assert (∀ B (k : option bytes → M B) rest,
    bind (if 0 <? len (embedded_image c)
          then bind (read (len (embedded_image c))) (λ d, ret (Some d)) else ret None) k
      (mkState fs0 (embedded_image c ++ rest))
    = k (if 0 <? len (embedded_image c) then Some (embedded_image c) else None)
        (mkState fs0 rest))
    as Himage.
  { intros B k rest. destruct (Z.ltb_spec 0 (len (embedded_image c))) as [Hpos|Hzero].
    - rewrite bind_assoc. rewrite bind_read_app by (unfold len; by rewrite Nat2Z.id).
      by rewrite bind_ret.
    - rewrite bind_ret. destruct (embedded_image c); [done|]. unfold len in Hzero.
      simpl in Hzero. lia. }
  rewrite Himage.
  destruct (Z.ltb_spec (len (embedded_image c)) space) as [Hlt|Hge].
  - by rewrite bind_seek_app by (unfold len in *; lia).
  - by destruct (image_padding c) as [|x pad]; [|unfold len in *; simpl in Hpad; lia].
Qed.

Lemma metadata_block_is_unwrapped_witness :
  let text := utf8 [0x6D; 0xFA; 0x73; 0x69; 0x63; 0x61; 0x7B; 0x7D] in
  let doc := JDict [] in
  let E := text_libraries text "{}" doc in
  let c := mkBare [0; 0] (pack_I 32) sample_key_block (pack_I 38) [0; 0; 0; 0; 0]
             (pack_I 5) (pack_I 2) [7; 8] [0; 0; 0] (b "payload") in
  read_container E song
    (mkState (sample_fs (tagged_container_bytes c sample_meta_block)) [])
  = (Normal (mkParsed (KeystreamSpec.table (drop 17 (replicate 17 0 ++ [1; 2; 3])))
               doc
               (if 0 <? len (embedded_image c) then Some (embedded_image c)
                else None)),
     mkState (sample_fs (tagged_container_bytes c sample_meta_block)) (payload c))
  ∧ (∀ cps, Forall code_point cps → text = utf8 cps →
       str_drop 6 text = utf8 (drop 6 cps)).
Proof.
  intros text doc E c.
  apply (metadata_block_is_unwrapped E song
           (sample_fs (tagged_container_bytes c sample_meta_block)) c
           sample_meta_block
           (replicate 17 0 ++ [1; 2; 3] ++ replicate 12 12)
           (replicate 17 0 ++ [1; 2; 3])
           (replicate 16 16) (replicate 16 16) [] text doc).
  - apply lookup_singleton_eq.
  - split; [reflexivity|]. split; [reflexivity|]. split; [discriminate|].
    split; [reflexivity|]. split; [reflexivity|]. split; [reflexivity|].
    exists 5. split; reflexivity.
  - vm_compute. reflexivity.
  - vm_compute. reflexivity.
  - discriminate.
  - vm_compute. reflexivity.
  - reflexivity.
  - vm_compute. reflexivity.
  - reflexivity.
  - vm_compute. reflexivity.
Defined.

(** ** The result follows the metadata *)

Lemma get_dict items key default :
  get (JDict items) key default = inr (from_option id default (assoc_get key items)).
Proof. reflexivity. Qed.

(** X18: with an object as metadata and an accepted output, the result is
    decided by the metadata alone: title and album are the entries
    ['musicName'] and ['album'] or ['Unknown'], the format is the upper-cased
    format entry, the artist is what the extraction of lines 181-187 gives
    (of an artist given as a string, its first code point), and the call
    succeeds exactly when that extraction does; an artist entry it cannot
    index makes the call report a failure although the output file has been
    written.  The cover step cannot change this outcome. *)
Theorem result_follows_metadata E file_path fs0 p σ items fmt output_path :
  read_container E file_path (mkState fs0 []) = (Normal p, σ) →
  meta_data p = JDict items →
  from_option id (JStr "mp3") (assoc_get "format" items) = JStr fmt →
  with_suffix file_path ("." +:+ fmt) = inr output_path →
  output_path ≠ file_path →
  verify_output (<[output_path := keystream_xor (key_stream p) 0 (f σ)]> fs0)
    output_path (JStr fmt) = true →
  ∃ r fs',
    decrypt_ncm E file_path fs0 = (Returned r, fs')
    ∧ is_Some (fs' !! output_path)
    ∧ match artist_of (from_option id (JList []) (assoc_get "artist" items)) with
      | inr artist =>
          ∃ cover_info,
            r = Success (name file_path) (name output_path)
                  (from_option id (JStr "Unknown") (assoc_get "musicName" items))
                  artist
                  (from_option id (JStr "Unknown") (assoc_get "album" items))
                  (upper fmt) cover_info
      | inl e => r = Failure (name file_path) (str_exn e)
      end.
Proof.
  intros Hparse Hmeta Hfmt Hpath _ Hok.
  assert (get (meta_data p) "format" (JStr "mp3") = inr (JStr fmt)) as Hget
    by (by rewrite Hmeta, get_dict, Hfmt).
  pose proof (parsed_written E file_path fs0 p σ (JStr fmt) output_path
                Hparse Hget Hpath) as Hout.
  rewrite decrypt_ncm_unfold, decrypt_ncm_body_split.
  rewrite (bind_Normal _ _ _ _ _ Hout).
  unfold finish. cbn [fst snd].
  erewrite bind_Normal by (by rewrite check_output_eq; cbn [fs]; rewrite Hok).
  destruct (embed_cover_spec E p (JStr fmt) output_path
              (mkState (<[output_path := keystream_xor (key_stream p) 0 (f σ)]> fs0) []))
    as (cover_info & σ' & Hcover & Hkeep & _).
  rewrite (bind_Normal _ _ _ _ _ Hcover).
  assert (is_Some (fs σ' !! output_path)) as Hfile.
  { apply Hkeep. cbn [fs]. rewrite lookup_insert_eq. eauto. }
  unfold report. rewrite Hmeta, !get_dict, bind_lift_inr.
  destruct (artist_of _) as [e|artist].
  - rewrite bind_lift_inl. by eexists _, _.
  - rewrite !bind_lift_inr. cbn [upper_of]. rewrite bind_lift_inr.
    eexists _, _. split; [done|]. split; [done|]. by eexists.
Qed.

Lemma result_follows_metadata_witness :
  let items := [("format", JStr "flac"); ("musicName", JStr "Song");
                ("artist", JStr (utf8 [0x5468; 0x6770; 0x4F26]));
                ("musicId", JInt 0)] in
  let payload := keystream_xor (KeystreamSpec.table [1; 2; 3]) 0 (b "fLaC audio") in
  let fs0 := sample_fs (sample_container true [] payload) in
  ∃ r fs',
    decrypt_ncm (stub_libraries (JDict items)) song fs0 = (Returned r, fs')
    ∧ is_Some (fs' !! mkPath "music" "song.flac")
    ∧ match artist_of (from_option id (JList []) (assoc_get "artist" items)) with
      | inr artist =>
          ∃ cover_info,
            r = Success (name song) (name (mkPath "music" "song.flac"))
                  (from_option id (JStr "Unknown") (assoc_get "musicName" items))
                  artist
                  (from_option id (JStr "Unknown") (assoc_get "album" items))
                  (upper "flac") cover_info
      | inl e => r = Failure (name song) (str_exn e)
      end.
Proof.
  intros items payload fs0.
  apply (result_follows_metadata (stub_libraries (JDict items)) song fs0
           (mkParsed (KeystreamSpec.table [1; 2; 3]) (JDict items) None)
           (mkState fs0 payload) items "flac" (mkPath "music" "song.flac")).
  - vm_compute. reflexivity.
  - reflexivity.
  - reflexivity.
  - vm_compute. reflexivity.
  - discriminate.
  - vm_compute. reflexivity.
Defined.

(** The extraction in the run above: an artist given as the string of the
    code points U+5468 U+6770 U+4F26 is reported as its first character,
    U+5468, three bytes long. *)
Lemma artist_of_string_example :
  artist_of (JStr (utf8 [0x5468; 0x6770; 0x4F26])) = inr (JStr (utf8 [0x5468]))
  ∧ String.length (utf8 [0x5468]) = 3%nat.
Proof. split; vm_compute; reflexivity. Qed.

(** ** The cover step *)

(** The step when the fetch raises: nothing is opened or written. *)
Lemma embed_cover_fetch_raises E p audio_format output_path σ music_id e :
  get (meta_data p) "musicId" JNull = inr music_id →
  truthy music_id = true →
  fetch_cover E music_id = inl e →
  embed_cover E p audio_format output_path σ = (Normal "Failed", σ).
Proof.
  intros Hid Htrue Hfetch. unfold embed_cover, try_except.
  by rewrite Hid, bind_lift_inr, Htrue, Hfetch, bind_lift_inl.
Qed.

(** X19: an exception while the cover is fetched (lines 139-148) is
    swallowed: the embedded picture is not tried in its place, the output
    file stays byte for byte the decrypted payload, and a success reports
    the cover ["Failed"]. *)
Theorem failed_fetch_leaves_output_untagged E file_path fs0 p σ audio_format
    output_path music_id e :
  read_container E file_path (mkState fs0 []) = (Normal p, σ) →
  get (meta_data p) "format" (JStr "mp3") = inr audio_format →
  with_suffix file_path ("." +:+ fstr E audio_format) = inr output_path →
  output_path ≠ file_path →
  get (meta_data p) "musicId" JNull = inr music_id →
  truthy music_id = true →
  fetch_cover E music_id = inl e →
  let audio := keystream_xor (key_stream p) 0 (f σ) in
  verify_output (<[output_path := audio]> fs0) output_path audio_format = true →
  ∃ r, decrypt_ncm E file_path fs0 = (Returned r, <[output_path := audio]> fs0)
    ∧ ((∃ e', r = Failure (name file_path) (str_exn e'))
       ∨ (∃ title artist album format,
            r = Success (name file_path) (name output_path) title artist
                  album format "Failed")).
Proof.
  intros Hparse Hget Hpath _ Hid Htrue Hfetch audio Hok.
  pose proof (parsed_written E file_path fs0 p σ _ _ Hparse Hget Hpath) as Hout.
  fold audio in Hout.
  rewrite decrypt_ncm_unfold, decrypt_ncm_body_split.
  rewrite (bind_Normal _ _ _ _ _ Hout).
  unfold finish. cbn [fst snd].
  erewrite bind_Normal by (by rewrite check_output_eq; cbn [fs]; rewrite Hok).
  rewrite (bind_Normal _ _ _ _ _
             (embed_cover_fetch_raises E p audio_format output_path _ music_id e
                Hid Htrue Hfetch)).
  destruct (report_spec file_path p audio_format output_path "Failed"
              (mkState (<[output_path := audio]> fs0) []))
    as [[e' ->]|(t & a & al & fm & ->)]; cbn [fs].
  - eexists. split; [done|]. left. by eexists.
  - eexists. split; [done|]. right. by eexists _, _, _, _.
Qed.

Lemma failed_fetch_leaves_output_untagged_witness :
  let doc := JDict [("format", JStr "mp3"); ("musicId", JInt 42)] in
  let E := mkExternals (λ _ data, inr data) (λ data, inr data) (λ _, inr "")
             (λ _, inr doc) (λ _, "")
             (λ _, inl (Exn (LibraryError "ConnectionError") "no route to host"))
             (λ _, inr (mkImage (Some "PNG") (3, 4)))
             (λ _ _ content, (content ++ [0], None))
             (λ _ _ content, (content ++ [0], None)) in
  let payload := keystream_xor (KeystreamSpec.table [1; 2; 3]) 0 (b "ID3 audio") in
  let fs0 := sample_fs (sample_container true [9; 9] payload) in
  let audio := keystream_xor (KeystreamSpec.table [1; 2; 3]) 0 payload in
  ∃ r, decrypt_ncm E song fs0
       = (Returned r, <[mkPath "music" "song.mp3" := audio]> fs0)
    ∧ ((∃ e', r = Failure (name song) (str_exn e'))
       ∨ (∃ title artist album format,
            r = Success (name song) (name (mkPath "music" "song.mp3")) title
                  artist album format "Failed")).
Proof.
  intros doc E payload fs0 audio.
  apply (failed_fetch_leaves_output_untagged E song fs0
           (mkParsed (KeystreamSpec.table [1; 2; 3]) doc (Some [9; 9]))
           (mkState fs0 payload) (JStr "mp3") (mkPath "music" "song.mp3")
           (JInt 42)
           (Exn (LibraryError "ConnectionError") "no route to host")).
  - vm_compute. reflexivity.
  - reflexivity.
  - vm_compute. reflexivity.
  - discriminate.
  - reflexivity.
  - reflexivity.
  - reflexivity.
  - vm_compute. reflexivity.
Defined.

(** The step when nothing was fetched and the container holds a picture
    the image library can open. *)
Lemma embed_cover_embedded E p fmt output_path fs1 audio music_id fetched
    x data img :
  get (meta_data p) "musicId" JNull = inr music_id →
  (if truthy music_id then fetch_cover E music_id else inr None) = inr fetched →
  truthy_bytes fetched = false →
  image_data p = Some (x :: data) →
  Image_open E (x :: data) = inr img →
  fmt = "flac" ∨ fmt = "mp3" →
  fs1 !! output_path = Some audio →
  let writer := if bool_decide (fmt = "flac") then FLAC_add_picture E
                else MP3_add_APIC E in
  let tagged := writer (mime_of img) (x :: data) audio in
  embed_cover E p (JStr fmt) output_path (mkState fs1 [])
  = (Normal (match tagged.2 with
                   | Some _ => "Failed"
                   | None => "Embedded " +:+ size_of img
                   end),
     mkState (<[output_path := tagged.1]> fs1) []).
Proof.
  intros Hid Hfetch Hnone Himg Hopen Hfmt Hfile writer tagged.
  unfold embed_cover, try_except. rewrite Hid, bind_lift_inr.
  assert ((if truthy music_id then lift (fetch_cover E music_id) else ret None)
          = (lift (inr fetched) : M (option bytes))) as ->.
  { destruct (truthy music_id); [by rewrite Hfetch|]. by injection Hfetch as <-. }
  rewrite bind_lift_inr, Hnone, Himg. cbn [negb andb truthy_bytes].
  rewrite Hopen, bind_lift_inr.
  fold (mime_of img). fold (size_of img).
  assert (∀ w : string → bytes → bytes → bytes * option exn,
    bind (tag_output (w (mime_of img) (x :: data)) output_path)
      (λ _, ret (if bool_decide ("Embedded" ≠ "Embedded") then size_of img
                 else "Embedded " +:+ size_of img)) (mkState fs1 [])
    = (match (w (mime_of img) (x :: data) audio).2 with
       | Some e => Raise e
       | None => Normal ("Embedded " +:+ size_of img)
       end,
       mkState (<[output_path := (w (mime_of img) (x :: data) audio).1]> fs1) []))
    as Htag.
  { intros w. unfold bind, tag_output. cbn [fs f]. rewrite Hfile.
    by destruct (w (mime_of img) (x :: data) audio) as [content' [e'|]]. }
  unfold tagged, writer.
  destruct Hfmt as [-> | ->]; cbn [eq_str];
    [rewrite (bool_decide_true ("flac" = "flac")) by done
    |rewrite (bool_decide_false ("mp3" = "flac")),
             (bool_decide_true ("mp3" = "mp3")) by done];
    rewrite Htag; by destruct (_.2).
Qed.

(** X20: when no picture was fetched and the container holds one that the
    image library opens, the tag writer of the format runs exactly once, on
    the decrypted payload and with the embedded picture and its mime type:
    the output file ends as what the writer made of it, and a success
    reports the cover as ["Embedded WxH"], or as ["Failed"] if the writer
    raised. *)
Theorem embedded_cover_is_written E file_path fs0 p σ fmt output_path music_id
    fetched x data img :
  read_container E file_path (mkState fs0 []) = (Normal p, σ) →
  get (meta_data p) "format" (JStr "mp3") = inr (JStr fmt) →
  with_suffix file_path ("." +:+ fmt) = inr output_path →
  output_path ≠ file_path →
  get (meta_data p) "musicId" JNull = inr music_id →
  (if truthy music_id then fetch_cover E music_id else inr None) = inr fetched →
  truthy_bytes fetched = false →
  image_data p = Some (x :: data) →
  Image_open E (x :: data) = inr img →
  let audio := keystream_xor (key_stream p) 0 (f σ) in
  verify_output (<[output_path := audio]> fs0) output_path (JStr fmt) = true →
  let writer := if bool_decide (fmt = "flac") then FLAC_add_picture E
                else MP3_add_APIC E in
  let tagged := writer (mime_of img) (x :: data) audio in
  ∃ r, decrypt_ncm E file_path fs0
       = (Returned r, <[output_path := tagged.1]> fs0)
    ∧ ((∃ e, r = Failure (name file_path) (str_exn e))
       ∨ (∃ title artist album format,
            r = Success (name file_path) (name output_path) title artist
                  album format
                  (match tagged.2 with
                   | Some _ => "Failed"
                   | None => "Embedded " +:+ size_of img
                   end))).
Proof.
  intros Hparse Hget Hpath _ Hid Hfetch Hnone Himg Hopen audio Hok writer tagged.
  pose proof (parsed_written E file_path fs0 p σ _ _ Hparse Hget Hpath) as Hout.
  fold audio in Hout.
  rewrite decrypt_ncm_unfold, decrypt_ncm_body_split.
  rewrite (bind_Normal _ _ _ _ _ Hout).
  unfold finish. cbn [fst snd].
  erewrite bind_Normal by (by rewrite check_output_eq; cbn [fs]; rewrite Hok).
  assert (fmt = "flac" ∨ fmt = "mp3") as Hfmt.
  { destruct (verify_output_is_str _ _ _ Hok) as [[= ->]|[= ->]]; auto. }
  rewrite (bind_Normal _ _ _ _ _
             (embed_cover_embedded E p fmt output_path _ audio music_id fetched
                x data img Hid Hfetch Hnone Himg Hopen Hfmt
                (lookup_insert_eq _ _ _))).
  fold writer. fold tagged. rewrite insert_insert_eq.
  destruct (report_spec file_path p (JStr fmt) output_path
              (match tagged.2 with
                   | Some _ => "Failed"
                   | None => "Embedded " +:+ size_of img
                   end)
              (mkState (<[output_path := tagged.1]> fs0) []))
    as [[e' ->]|(t & a & al & fm & ->)]; cbn [fs].
  - eexists. split; [done|]. left. by eexists.
  - eexists. split; [done|]. right. by eexists _, _, _, _.
Qed.

Lemma embedded_cover_is_written_witness :
  let doc := JDict [("format", JStr "mp3")] in
  let E := stub_libraries doc in
  let payload := keystream_xor (KeystreamSpec.table [1; 2; 3]) 0 (b "ID3 audio") in
  let fs0 := sample_fs (sample_container true [9; 9] payload) in
  let img := mkImage (Some "PNG") (3, 4) in
  let tagged := MP3_add_APIC E (mime_of img) [9; 9] (b "ID3 audio") in
  ∃ r, decrypt_ncm E song fs0
       = (Returned r, <[mkPath "music" "song.mp3" := tagged.1]> fs0)
    ∧ ((∃ e, r = Failure (name song) (str_exn e))
       ∨ (∃ title artist album format,
            r = Success (name song) (name (mkPath "music" "song.mp3")) title
                  artist album format
                  (match tagged.2 with
                   | Some _ => "Failed"
                   | None => "Embedded " +:+ size_of img
                   end))).
Proof.
  intros doc E payload fs0 img tagged.
  apply (embedded_cover_is_written E song fs0
           (mkParsed (KeystreamSpec.table [1; 2; 3]) doc (Some [9; 9]))
           (mkState fs0 payload) "mp3" (mkPath "music" "song.mp3")
           JNull None 9 [9] img).
  - vm_compute. reflexivity.
  - reflexivity.
  - vm_compute. reflexivity.
  - discriminate.
  - reflexivity.
  - reflexivity.
  - reflexivity.
  - reflexivity.
  - reflexivity.
  - vm_compute. reflexivity.
Defined.

(** ** The totals of [main] and the order of completion *)

(** X21: the workers may finish in any order: the two counters and the
    closing line of the report are the same for every order in which
    [as_completed] yields the same results. *)
Theorem report_totals_ignore_completion_order E n_files
    (completed completed' : list result) :
  completed ≡ₚ completed' →
  success_count (report_all E n_files completed)
  = success_count (report_all E n_files completed')
  ∧ fail_count (report_all E n_files completed)
    = fail_count (report_all E n_files completed')
  ∧ last (printed (report_all E n_files completed))
    = last (printed (report_all E n_files completed')).
Proof.
  intros Hperm.
  assert (∀ P `{∀ r : result, Decision (P r)},
    len (filter P completed) = len (filter P completed')) as Hcount.
  { intros P ?. unfold len. by rewrite Hperm. }
  unfold report_all. cbn [success_count fail_count printed].
  rewrite !last_snoc.
  destruct (report_loop_counts E completed (mkReport 0 0 [])) as [-> ->].
  destruct (report_loop_counts E completed' (mkReport 0 0 [])) as [-> ->].
  by rewrite !Hcount.
Qed.

Lemma report_totals_ignore_completion_order_witness :
  let ok := Success "a.ncm" "a.mp3" (JStr "A") (JStr "B") (JStr "C") "MP3" "None" in
  let bad := Failure "b.ncm" "Invalid NCM header" in
  let E := stub_libraries JNull in
  success_count (report_all E 3 [ok; bad; ok])
  = success_count (report_all E 3 [bad; ok; ok])
  ∧ fail_count (report_all E 3 [ok; bad; ok])
    = fail_count (report_all E 3 [bad; ok; ok])
  ∧ last (printed (report_all E 3 [ok; bad; ok]))
    = last (printed (report_all E 3 [bad; ok; ok])).
Proof.
  intros ok bad E.
  apply (report_totals_ignore_completion_order E 3 [ok; bad; ok] [bad; ok; ok]).
  apply perm_swap.
Defined.

(** ** An environment that refuses to open the output *)

Lemma write_output_same refusal E file_path p σ :
  (∀ audio_format output_path,
     get (meta_data p) "format" (JStr "mp3") = inr audio_format →
     with_suffix file_path ("." +:+ fstr E audio_format) = inr output_path →
     refusal output_path = None) →
  write_output refusal E file_path p σ = write_output no_refusal E file_path p σ.
Proof.
  intros Hopen. unfold write_output.
  destruct (get (meta_data p) "format" (JStr "mp3")) as [e|audio_format] eqn:Hget;
    [done|].
  rewrite !bind_lift_inr.
  destruct (with_suffix file_path ("." +:+ fstr E audio_format))
    as [e|output_path] eqn:Hpath; [done|].
  rewrite !bind_lift_inr. unfold write_payload, bind, open_wb.
  by rewrite (Hopen _ _ eq_refl Hpath).
Qed.

Lemma refused_open_outcome refusal E file_path fs0 p σ audio_format
    output_path e :
  read_container E file_path (mkState fs0 []) = (Normal p, σ) →
  get (meta_data p) "format" (JStr "mp3") = inr audio_format →
  with_suffix file_path ("." +:+ fstr E audio_format) = inr output_path →
  refusal output_path = Some e →
  decrypt_ncm_in refusal E file_path fs0
  = (Returned (Failure (name file_path) (str_exn e)), fs0).
Proof.
  intros Hparse Hget Hpath Hopen.
  pose proof (read_container_keeps_fs E file_path _ _ _ Hparse) as Hfs.
  cbn [fs] in Hfs.
  rewrite decrypt_ncm_in_unfold. unfold decrypt_ncm_body_in.
  rewrite (bind_Normal _ _ _ _ _ Hparse).
  rewrite (bind_Raise _ _ _ _ _
             (write_output_refused refusal E file_path p σ _ output_path e
                Hget Hpath Hopen)).
  by rewrite Hfs.
Qed.

(** Where no output path that is reached is refused, the call runs as
    where nothing is refused. *)
Lemma decrypt_ncm_in_same refusal E file_path fs0 :
  (∀ p σ audio_format output_path,
     read_container E file_path (mkState fs0 []) = (Normal p, σ) →
     get (meta_data p) "format" (JStr "mp3") = inr audio_format →
     with_suffix file_path ("." +:+ fstr E audio_format) = inr output_path →
     refusal output_path = None) →
  decrypt_ncm_in refusal E file_path fs0 = decrypt_ncm E file_path fs0.
Proof.
  intros Hopen. unfold decrypt_ncm. rewrite !decrypt_ncm_in_unfold.
  unfold decrypt_ncm_body_in, bind.
  destruct (read_container E file_path (mkState fs0 [])) as [[p|r|e] σ] eqn:Hparse;
    [|done..].
  rewrite (write_output_same refusal E file_path p σ); [done|].
  intros audio_format output_path. by apply (Hopen p σ).
Qed.

(** X22: when the open of line 118 is refused, whatever the format (the
    two the validator knows included) and whatever the exception, the call
    returns the failure with the message of that exception, and no file is
    created, changed or deleted: lines 68-127 end in that exception with
    the file system as it was, so the validator is never called. *)
Theorem refused_open_writes_nothing refusal E file_path fs0 p σ audio_format
    output_path e :
  read_container E file_path (mkState fs0 []) = (Normal p, σ) →
  get (meta_data p) "format" (JStr "mp3") = inr audio_format →
  with_suffix file_path ("." +:+ fstr E audio_format) = inr output_path →
  refusal output_path = Some e →
  decrypt_ncm_in refusal E file_path fs0
  = (Returned (Failure (name file_path) (str_exn e)), fs0)
  ∧ (∀ q, (decrypt_ncm_in refusal E file_path fs0).2 !! q = fs0 !! q)
  ∧ decrypted_output_in refusal E file_path (mkState fs0 [])
    = (Raise e, mkState fs0 (f σ)).
Proof.
  intros Hparse Hget Hpath Hopen.
  rewrite (refused_open_outcome refusal E file_path fs0 p σ audio_format
             output_path e Hparse Hget Hpath Hopen).
  split; [done|]. split; [done|].
  pose proof (read_container_keeps_fs E file_path _ _ _ Hparse) as Hfs.
  cbn [fs] in Hfs. unfold decrypted_output_in.
  rewrite (bind_Normal _ _ _ _ _ Hparse).
  rewrite (bind_Raise _ _ _ _ _
             (write_output_refused refusal E file_path p σ _ output_path e
                Hget Hpath Hopen)).
  destruct σ as [fs1 rest]. cbn [fs f] in *. by subst.
Qed.

Lemma refused_open_writes_nothing_witness :
  let E := stub_libraries (JDict [("format", JStr "flac")]) in
  let payload := keystream_xor (KeystreamSpec.table [1; 2; 3]) 0 (b "fLaC audio") in
  let fs0 := sample_fs (sample_container true [] payload) in
  let denied := Exn (LibraryError "PermissionError")
                  "[Errno 13] Permission denied: 'music/song.flac'" in
  decrypt_ncm_in (λ _, Some denied) E song fs0
  = (Returned (Failure (name song) (str_exn denied)), fs0)
  ∧ (∀ q, (decrypt_ncm_in (λ _, Some denied) E song fs0).2 !! q = fs0 !! q)
  ∧ decrypted_output_in (λ _, Some denied) E song (mkState fs0 [])
    = (Raise denied, mkState fs0 (f (mkState fs0 payload))).
Proof.
  intros E payload fs0 denied.
  apply (refused_open_writes_nothing (λ _, Some denied) E song fs0
           (mkParsed (KeystreamSpec.table [1; 2; 3])
              (JDict [("format", JStr "flac")]) None)
           (mkState fs0 payload) (JStr "flac") (mkPath "music" "song.flac")
           denied).
  - vm_compute. reflexivity.
  - reflexivity.
  - vm_compute. reflexivity.
  - reflexivity.
Defined.

(** X23: a refusing environment changes a call in one way only.  If the
    call gets as far as opening the output and that open is refused, it
    returns the failure with the message of the exception and leaves the
    file system as it was; in every other case it runs exactly as where
    nothing is refused.  Either way it returns a result that names the
    input file. *)
Theorem refusal_only_fails_the_open refusal E file_path fs0 :
  decrypt_ncm_in refusal E file_path fs0
  = match reached_output E file_path fs0 with
    | Some output_path =>
        match refusal output_path with
        | Some e => (Returned (Failure (name file_path) (str_exn e)), fs0)
        | None => decrypt_ncm E file_path fs0
        end
    | None => decrypt_ncm E file_path fs0
    end
  ∧ ∃ r fs', decrypt_ncm_in refusal E file_path fs0 = (Returned r, fs')
             ∧ file_of r = name file_path.
Proof.
  assert (decrypt_ncm_in refusal E file_path fs0
          = match reached_output E file_path fs0 with
            | Some output_path =>
                match refusal output_path with
                | Some e => (Returned (Failure (name file_path) (str_exn e)), fs0)
                | None => decrypt_ncm E file_path fs0
                end
            | None => decrypt_ncm E file_path fs0
            end) as Hrun.
  { unfold reached_output.
    destruct (read_container E file_path (mkState fs0 [])) as [[p|r|e] σ] eqn:Hparse.
    2,3: by apply decrypt_ncm_in_same; intros p' σ' ? ? Hp; rewrite Hparse in Hp.
    destruct (get (meta_data p) "format" (JStr "mp3")) as [e|audio_format] eqn:Hget.
    { apply decrypt_ncm_in_same. intros p' σ' ? ? Hp.
      rewrite Hparse in Hp. injection Hp as <- <-. by rewrite Hget. }
    destruct (with_suffix file_path ("." +:+ fstr E audio_format))
      as [e|output_path] eqn:Hpath.
    { apply decrypt_ncm_in_same. intros p' σ' ? ? Hp.
      rewrite Hparse in Hp. injection Hp as <- <-.
      rewrite Hget. intros [= <-]. by rewrite Hpath. }
    destruct (refusal output_path) as [e|] eqn:Hopen.
    - by apply (refused_open_outcome refusal E file_path fs0 p σ audio_format
                  output_path).
    - apply decrypt_ncm_in_same. intros p' σ' ? out Hp.
      rewrite Hparse in Hp. injection Hp as <- <-.
      rewrite Hget. intros [= <-]. rewrite Hpath. by intros [= <-]. }
  split; [exact Hrun|]. rewrite Hrun.
  assert (∃ r fs', decrypt_ncm E file_path fs0 = (Returned r, fs')
                   ∧ file_of r = name file_path) as Hcall.
  { rewrite decrypt_ncm_unfold.
    destruct (decrypt_ncm_body_ends E file_path (mkState fs0 []))
      as (y & σ' & -> & [[e ->]|(r & -> & Hfile)]); by eexists _, _. }
  destruct (reached_output E file_path fs0) as [output_path|]; [|done].
  destruct (refusal output_path); [by eexists _, _|done].
Qed.
